(** * get_product.py: output normalisation, selection parsing and the
      retrieval/selection pipeline

    A shallow embedding of [src/get_product.py].

    Python [str] values are modelled by [string]; a character of the model
    is a code point below 256, so the development speaks about Latin-1
    text.  The [str] methods used by the program ([strip], [lower],
    [splitlines], [split], [startswith], [endswith], slicing) are modelled
    with the tables CPython uses on that range.

    Exceptions are explicit: a computation that may raise returns [res A],
    and [try ... except Exception: pass] is [catch_pass]. *)

From Stdlib Require Import String Ascii List Bool Arith ZArith.
From Stdlib Require Import DecimalString Permutation.
Import ListNotations.
Open Scope string_scope.
Open Scope nat_scope.

Set Implicit Arguments.
Set Warnings "-register-all".

(** ** Exceptions *)

Inductive exn : Type :=
| JSONDecodeError
| IndexError
| RuntimeError (msg : string)
| ClientError (msg : string).

Inductive res (A : Type) : Type :=
| Ok (a : A)
| Raise (e : exn).

Arguments Ok {A} a.
Arguments Raise {A} e.

Definition bind {A B : Type} (r : res A) (k : A -> res B) : res B :=
  match r with
  | Ok a => k a
  | Raise e => Raise e
  end.

Notation "x <- c ;; k" := (bind c (fun x => k))
  (at level 61, c at next level, right associativity).

(** [try: body / except Exception: pass], where [body] either returns from
    the enclosing function ([Ok (Some v)]), falls off its end ([Ok None]) or
    raises: after the handler, control continues exactly as when the body
    fell through. *)
Definition catch_pass {A : Type} (body : res (option A)) : option A :=
  match body with
  | Ok o => o
  | Raise _ => None
  end.

(** ** Characters and the [str] methods *)

Definition nl : string := String "010"%char "".

(** The double quote, as a character and as a one-character string. *)
Definition dquote : ascii := "034"%char.
Definition dq : string := String dquote "".

(** [str.isspace] on code points below 256: TAB, LF, VT, FF, CR, FS, GS, RS,
    US, SPACE, NEL (0x85) and NBSP (0xA0). *)
Definition is_space (c : ascii) : bool :=
  let n := nat_of_ascii c in
  ((9 <=? n) && (n <=? 13)) || ((28 <=? n) && (n <=? 32))
  || (n =? 133) || (n =? 160).

(** Line boundaries of [str.splitlines] below 256: LF, VT, FF, CR, FS, GS,
    RS and NEL. *)
Definition is_linebreak (c : ascii) : bool :=
  let n := nat_of_ascii c in
  ((10 <=? n) && (n <=? 13)) || ((28 <=? n) && (n <=? 30)) || (n =? 133).

(** [str.lower] on one code point below 256: A-Z and the Latin-1 capitals
    0xC0-0xDE (0xD7, the multiplication sign, apart) move up by 32. *)
Definition lower_char (c : ascii) : ascii :=
  let n := nat_of_ascii c in
  if ((65 <=? n) && (n <=? 90))
     || ((192 <=? n) && (n <=? 222) && negb (n =? 215))
  then ascii_of_nat (n + 32) else c.

Fixpoint lower (s : string) : string :=
  match s with
  | "" => ""
  | String c r => String (lower_char c) (lower r)
  end.

Fixpoint lstrip (s : string) : string :=
  match s with
  | "" => ""
  | String c r => if is_space c then lstrip r else s
  end.

Fixpoint rstrip (s : string) : string :=
  match s with
  | "" => ""
  | String c r =>
      match rstrip r with
      | "" => if is_space c then "" else String c ""
      | r' => String c r'
      end
  end.

Definition strip (s : string) : string := rstrip (lstrip s).

Fixpoint startswith (s p : string) {struct p} : bool :=
  match p with
  | "" => true
  | String b p' =>
      match s with
      | "" => false
      | String a s' => Ascii.eqb a b && startswith s' p'
      end
  end.

Fixpoint last_char (s : string) : option ascii :=
  match s with
  | "" => None
  | String c "" => Some c
  | String _ r => last_char r
  end.

(** [s.endswith(c)] for a one-character suffix, the only use in the
    program. *)
Definition endswith (s : string) (c : ascii) : bool :=
  match last_char s with
  | Some d => Ascii.eqb d c
  | None => false
  end.

(** [s[:-1]] *)
Fixpoint drop_last (s : string) : string :=
  match s with
  | "" => ""
  | String _ "" => ""
  | String c r => String c (drop_last r)
  end.

(** [s[1:-1]]: empty for a string of length below 2. *)
Definition slice_1_m1 (s : string) : string :=
  match s with
  | "" => ""
  | String _ r => drop_last r
  end.

(** [s.split(sep, 1)]: one element when [sep] does not occur, else the text
    before and the text after its first occurrence. *)
Fixpoint split1 (sep : ascii) (s : string) : list string :=
  match s with
  | "" => [""]
  | String c r =>
      if Ascii.eqb c sep then [""; r]
      else match split1 sep r with
           | h :: t => String c h :: t
           | [] => []
           end
  end.

(** [l[i]] *)
Definition index {A : Type} (l : list A) (i : nat) : res A :=
  match nth_error l i with
  | Some a => Ok a
  | None => Raise IndexError
  end.

(** [str.splitlines]: the segments between line boundaries, CR LF counting
    as one boundary, without a final empty segment. *)
Fixpoint splitlines_from (cur : string) (s : string) : list string :=
  match s with
  | "" => match cur with "" => [] | _ => [cur] end
  | String c r =>
      if is_linebreak c then
        match r with
        | String d r' =>
            if Ascii.eqb c "013" && Ascii.eqb d "010"
            then cur :: splitlines_from "" r'
            else cur :: splitlines_from "" r
        | "" => cur :: splitlines_from "" r
        end
      else splitlines_from (cur ++ String c "") r
  end.

Definition splitlines (s : string) : list string := splitlines_from "" s.

(** [sep.join(l)] *)
Fixpoint join (sep : string) (l : list string) : string :=
  match l with
  | [] => ""
  | [x] => x
  | x :: r => x ++ sep ++ join sep r
  end.

(** Truthiness of an optional string: [None] and [""] are false. *)
Definition truthy (o : option string) : bool :=
  match o with
  | None | Some "" => false
  | Some _ => true
  end.

(** [x or d] for an optional string [x] and a string [d]. *)
Definition or_else (o : option string) (d : string) : string :=
  match o with
  | None | Some "" => d
  | Some s => s
  end.

(** ** JSON values and [json.loads]

    The value [json.loads] builds: [None], [bool], [int]/[float] (kept as the
    literal's text, the program never looks at a number), [str], [list] and
    [dict].  A [dict] keeps the members in document order; a repeated key
    keeps its last value, which is what [dict_get] returns.

    The decoder follows CPython's [json.decoder] and [json.scanner] with
    their defaults: strict strings, and the constants NaN, Infinity and
    -Infinity accepted.  The limits of the interpreter (recursion depth,
    digits of an int) are left out; reaching one raises inside the [try]
    blocks of the program, as a decoding error does. *)

Inductive json : Type :=
| JNull
| JBool (b : bool)
| JNumber (lit : string)
| JString (s : string)
| JArray (items : list json)
| JObject (members : list (string * json)).

(** [d.get(key)]: [None] when the key is missing. *)
Fixpoint dict_get (members : list (string * json)) (key : string)
  : option json :=
  match members with
  | [] => None
  | (k, v) :: rest =>
      match dict_get rest key with
      | Some v' => Some v'
      | None => if String.eqb k key then Some v else None
      end
  end.

Module Json.

(** The literals: null, true, false, and the three float constants. *)
Inductive const : Type :=
| CNull | CTrue | CFalse | CNaN | CInfinity | CNegInfinity.

Definition const_value (c : const) : json :=
  match c with
  | CNull => JNull
  | CTrue => JBool true
  | CFalse => JBool false
  | CNaN => JNumber "NaN"
  | CInfinity => JNumber "Infinity"
  | CNegInfinity => JNumber "-Infinity"
  end.

(** Tokens of the JSON text.  [json.loads] allows its four white space
    characters exactly between tokens, so decoding is scanning the text into
    tokens and then reading one value off the token list. *)
Inductive token : Type :=
| TLBrace | TRBrace | TLBracket | TRBracket | TColon | TComma
| TString (s : string)
| TNumber (lit : string)
| TConst (c : const).

(** Where the scanner stands inside a number: an optional minus sign, then
    0 or a digit string without leading 0, then an optional fraction (a dot
    and at least one digit), then an optional exponent (e or E, an optional
    sign, at least one digit). *)
Inductive numstate : Type :=
| NMinus | NZero | NInt | NDot | NFrac | NExp | NExpSign | NExpDigits.

Inductive lexmode : Type :=
| LTop
| LStr (acc : string)
| LEsc (acc : string)
| LUni (acc : string) (hex : list nat)
| LNum (st : numstate) (acc : string)
| LConst (rest : string) (k : const).

Definition is_ws (c : ascii) : bool :=
  let n := nat_of_ascii c in
  (n =? 32) || (n =? 9) || (n =? 10) || (n =? 13).

Definition is_digit (c : ascii) : bool :=
  let n := nat_of_ascii c in (48 <=? n) && (n <=? 57).

Definition hex_value (c : ascii) : option nat :=
  let n := nat_of_ascii c in
  if (48 <=? n) && (n <=? 57) then Some (n - 48)
  else if (65 <=? n) && (n <=? 70) then Some (n - 55)
  else if (97 <=? n) && (n <=? 102) then Some (n - 87)
  else None.

Definition snoc (s : string) (c : ascii) : string := s ++ String c "".

(** One character at the start of a token. *)
Definition lex_top (toks : list token) (c : ascii)
  : option (lexmode * list token) :=
  if is_ws c then Some (LTop, toks)
  else if Ascii.eqb c "{" then Some (LTop, TLBrace :: toks)
  else if Ascii.eqb c "}" then Some (LTop, TRBrace :: toks)
  else if Ascii.eqb c "[" then Some (LTop, TLBracket :: toks)
  else if Ascii.eqb c "]" then Some (LTop, TRBracket :: toks)
  else if Ascii.eqb c ":" then Some (LTop, TColon :: toks)
  else if Ascii.eqb c "," then Some (LTop, TComma :: toks)
  else if Ascii.eqb c dquote then Some (LStr "", toks)
  else if Ascii.eqb c "-" then Some (LNum NMinus "-", toks)
  else if Ascii.eqb c "0" then Some (LNum NZero "0", toks)
  else if is_digit c then Some (LNum NInt (String c ""), toks)
  else if Ascii.eqb c "n" then Some (LConst "ull" CNull, toks)
  else if Ascii.eqb c "t" then Some (LConst "rue" CTrue, toks)
  else if Ascii.eqb c "f" then Some (LConst "alse" CFalse, toks)
  else if Ascii.eqb c "N" then Some (LConst "aN" CNaN, toks)
  else if Ascii.eqb c "I" then Some (LConst "nfinity" CInfinity, toks)
  else None.

(** One character inside a number: [Some (inl st)] goes on, [Some (inr tt)]
    ends the number before this character, [None] rejects. *)
Definition lex_num (st : numstate) (c : ascii) : option (numstate + unit) :=
  let e := Ascii.eqb c "e" || Ascii.eqb c "E" in
  match st with
  | NMinus =>
      if Ascii.eqb c "0" then Some (inl NZero)
      else if is_digit c then Some (inl NInt) else None
  | NZero =>
      if Ascii.eqb c "." then Some (inl NDot)
      else if e then Some (inl NExp) else Some (inr tt)
  | NInt =>
      if is_digit c then Some (inl NInt)
      else if Ascii.eqb c "." then Some (inl NDot)
      else if e then Some (inl NExp) else Some (inr tt)
  | NDot => if is_digit c then Some (inl NFrac) else None
  | NFrac =>
      if is_digit c then Some (inl NFrac)
      else if e then Some (inl NExp) else Some (inr tt)
  | NExp =>
      if Ascii.eqb c "+" || Ascii.eqb c "-" then Some (inl NExpSign)
      else if is_digit c then Some (inl NExpDigits) else None
  | NExpSign => if is_digit c then Some (inl NExpDigits) else None
  | NExpDigits => if is_digit c then Some (inl NExpDigits) else Some (inr tt)
  end.

Definition num_final (st : numstate) : bool :=
  match st with
  | NZero | NInt | NFrac | NExpDigits => true
  | _ => false
  end.

(** The character named by a simple escape. *)
Definition escape_char (c : ascii) : option ascii :=
  if Ascii.eqb c dquote then Some dquote
  else if Ascii.eqb c "\" then Some "\"%char
  else if Ascii.eqb c "/" then Some "/"%char
  else if Ascii.eqb c "b" then Some "008"%char
  else if Ascii.eqb c "f" then Some "012"%char
  else if Ascii.eqb c "n" then Some "010"%char
  else if Ascii.eqb c "r" then Some "013"%char
  else if Ascii.eqb c "t" then Some "009"%char
  else None.

(** The scanner; tokens are collected in reverse.  Inside a string a raw
    control character (below 0x20) is rejected, as the strict decoder does.
    A [\uXXXX] escape is decoded when it names a code point below 256; a
    larger one has no character in this model and the text is rejected,
    which is where the model stops short of Python: what is read off a
    rejection is stated for the texts of [narrow_escapes] only. *)
Fixpoint lex (m : lexmode) (toks : list token) (s : string)
  : option (list token) :=
  match s with
  | "" =>
      match m with
      | LTop => Some (rev toks)
      | LNum st acc =>
          if num_final st then Some (rev (TNumber acc :: toks)) else None
      | _ => None
      end
  | String c r =>
      match m with
      | LTop =>
          match lex_top toks c with
          | Some (m', toks') => lex m' toks' r
          | None => None
          end
      | LStr acc =>
          if Ascii.eqb c dquote then lex LTop (TString acc :: toks) r
          else if Ascii.eqb c "\" then lex (LEsc acc) toks r
          else if nat_of_ascii c <? 32 then None
          else lex (LStr (snoc acc c)) toks r
      | LEsc acc =>
          if Ascii.eqb c "u" then lex (LUni acc []) toks r
          else match escape_char c with
               | Some d => lex (LStr (snoc acc d)) toks r
               | None => None
               end
      | LUni acc hex =>
          match hex_value c, hex with
          | Some d, [a1; a2; a3] =>
              let n := ((a1 * 16 + a2) * 16 + a3) * 16 + d in
              if n <? 256 then lex (LStr (snoc acc (ascii_of_nat n))) toks r
              else None
          | Some d, _ => lex (LUni acc (hex ++ [d])) toks r
          | None, _ => None
          end
      | LNum st acc =>
          if (match st with NMinus => Ascii.eqb c "I" | _ => false end)
          then lex (LConst "nfinity" CNegInfinity) toks r
          else
            match lex_num st c with
            | Some (inl st') => lex (LNum st' (snoc acc c)) toks r
            | Some (inr _) =>
                match lex_top (TNumber acc :: toks) c with
                | Some (m', toks') => lex m' toks' r
                | None => None
                end
            | None => None
            end
      | LConst rest k =>
          match rest with
          | String d rest' =>
              if Ascii.eqb c d then
                match rest' with
                | "" => lex LTop (TConst k :: toks) r
                | _ => lex (LConst rest' k) toks r
                end
              else None
          | "" => None
          end
      end
  end.

(** The reader's stack: the enclosing arrays and objects, each with what it
    holds so far (in reverse), an object also with the key whose value is
    being read. *)
Inductive frame : Type :=
| FArr (items : list json)
| FObj (members : list (string * json)) (key : string).

Inductive pstate : Type :=
| SValue (stk : list frame)
| SArrFirst (stk : list frame)
| SObjFirst (stk : list frame)
| SObjKey (members : list (string * json)) (stk : list frame)
| SColon (members : list (string * json)) (key : string) (stk : list frame)
| SArrAfter (items : list json) (stk : list frame)
| SObjAfter (members : list (string * json)) (stk : list frame)
| SDone (v : json).

(** A complete value goes into the innermost open container. *)
Definition deliver (v : json) (stk : list frame) : pstate :=
  match stk with
  | [] => SDone v
  | FArr items :: stk' => SArrAfter (v :: items) stk'
  | FObj members key :: stk' => SObjAfter ((key, v) :: members) stk'
  end.

Definition step_value (stk : list frame) (t : token) : option pstate :=
  match t with
  | TString s => Some (deliver (JString s) stk)
  | TNumber lit => Some (deliver (JNumber lit) stk)
  | TConst k => Some (deliver (const_value k) stk)
  | TLBracket => Some (SArrFirst stk)
  | TLBrace => Some (SObjFirst stk)
  | _ => None
  end.

Definition step (st : pstate) (t : token) : option pstate :=
  match st with
  | SValue stk => step_value stk t
  | SArrFirst stk =>
      match t with
      | TRBracket => Some (deliver (JArray []) stk)
      | _ => step_value (FArr [] :: stk) t
      end
  | SObjFirst stk =>
      match t with
      | TRBrace => Some (deliver (JObject []) stk)
      | TString k => Some (SColon [] k stk)
      | _ => None
      end
  | SObjKey members stk =>
      match t with
      | TString k => Some (SColon members k stk)
      | _ => None
      end
  | SColon members k stk =>
      match t with
      | TColon => Some (SValue (FObj members k :: stk))
      | _ => None
      end
  | SArrAfter items stk =>
      match t with
      | TComma => Some (SValue (FArr items :: stk))
      | TRBracket => Some (deliver (JArray (rev items)) stk)
      | _ => None
      end
  | SObjAfter members stk =>
      match t with
      | TComma => Some (SObjKey members stk)
      | TRBrace => Some (deliver (JObject (rev members)) stk)
      | _ => None
      end
  | SDone _ => None
  end.

Fixpoint read (st : pstate) (ts : list token) : option json :=
  match ts with
  | [] => match st with SDone v => Some v | _ => None end
  | t :: ts' =>
      match step st t with
      | Some st' => read st' ts'
      | None => None
      end
  end.

Definition decode (s : string) : option json :=
  match lex LTop [] s with
  | Some ts => read (SValue []) ts
  | None => None
  end.

End Json.

(** [json.loads(t)]: the value, or [JSONDecodeError].  On a text with a
    [\uXXXX] escape above 255 the model has no value to give and answers
    with the error; [narrow_escapes] keeps such texts apart. *)
Definition json_loads (t : string) : res json :=
  match Json.decode t with
  | Some v => Ok v
  | None => Raise JSONDecodeError
  end.

(** The texts on which the decoder of the model is the decoder of Python:
    wherever a backslash is followed by u, two zeros follow, so that no
    escape names a code point above 255. *)
Fixpoint narrow_escapes (t : string) : bool :=
  match t with
  | "" => true
  | String c r =>
      (if Ascii.eqb c "\" && startswith r "u" then startswith r "u00"
       else true)
      && narrow_escapes r
  end.

(** ** [_extract_text_from_possible_json] (lines 89-148) *)

(** [val = obj.get(key)] followed by [isinstance(val, str)]. *)
Definition get_str (members : list (string * json)) (key : string)
  : option string :=
  match dict_get members key with
  | Some (JString v) => Some v
  | _ => None
  end.

(** [for key in keys: val = obj.get(key)], returning [val] as soon as
    [isinstance(val, str)]. *)
Fixpoint first_str (members : list (string * json)) (keys : list string)
  : option string :=
  match keys with
  | [] => None
  | key :: keys' =>
      match get_str members key with
      | Some v => Some v
      | None => first_str members keys'
      end
  end.

(** The same loop when a hit is appended to [texts] instead of returned. *)
Definition all_strs (members : list (string * json)) (keys : list string)
  : list string :=
  flat_map (fun key => match get_str members key with
                       | Some v => [v]
                       | None => []
                       end) keys.

Definition object_keys : list string :=
  ["ml_generate_text_result"; "text"; "content"; "output_text"; "result"].

Definition first_item_keys : list string :=
  ["content"; "text"; "output_text"; "ml_generate_text_result"].

(** Lines 126-130: what one element of [parts] appends to [texts]. *)
Definition part_texts (part : json) : list string :=
  match part with
  | JObject p => all_strs p ["text"]
  | _ => []
  end.

(** Lines 122-130: the texts under [content.parts]. *)
Definition content_texts (c : list (string * json)) : list string :=
  match dict_get c "content" with
  | Some (JObject content) =>
      match dict_get content "parts" with
      | Some (JArray parts) => flat_map part_texts parts
      | _ => []
      end
  | _ => []
  end.

(** Lines 113-134: what one candidate appends to [texts]; an element that is
    not a dict is skipped. *)
Definition candidate_texts (cand : json) : list string :=
  match cand with
  | JObject c =>
      all_strs c ["text"; "output_text"]
      ++ content_texts c
      ++ all_strs c ["ml_generate_text_result"]
  | _ => []
  end.

(** Lines 95-97, the body of the first [try]. *)
Definition try_quoted (t : string) : res (option string) :=
  loaded <- json_loads t ;;
  match loaded with
  | JString v => Ok (Some v)
  | _ => Ok None
  end.

(** Lines 102-145, the body of the second [try]. *)
Definition try_structured (t : string) : res (option string) :=
  obj <- json_loads t ;;
  match obj with
  | JString v => Ok (Some v)
  | JObject members =>
      match first_str members object_keys with
      | Some v => Ok (Some v)
      | None =>
          match dict_get members "candidates" with
          | Some (JArray ((_ :: _) as candidates)) =>
              match flat_map candidate_texts candidates with
              | [] => Ok None
              | texts => Ok (Some (join nl texts))
              end
          | _ => Ok None
          end
      end
  | JArray [] => Ok None
  | JArray items =>
      first <- index items 0 ;;
      match first with
      | JString v => Ok (Some v)
      | JObject members => Ok (first_str members first_item_keys)
      | _ => Ok None
      end
  | _ => Ok None
  end.

Definition quoted (t : string) : bool :=
  (startswith t dq && endswith t dquote)
  || (startswith t "'" && endswith t "'").

Definition _extract_text_from_possible_json (s : option string)
  : res string :=
  match s with
  | None => Ok ""
  | Some s =>
      let t := strip s in
      match (if quoted t then catch_pass (try_quoted t) else None) with
      | Some loaded => Ok loaded
      | None =>
          match (if startswith t "{" || startswith t "["
                 then catch_pass (try_structured t) else None) with
          | Some v => Ok v
          | None => Ok s
          end
      end
  end.

(** ** [parse_selected_product_id] (lines 151-167) *)

Definition selection_key : string := "selected_product_id:".

(** Line 158, the test on a stripped line. *)
Definition is_selection (stripped : string) : bool :=
  startswith (lower stripped) selection_key.

(** Lines 160-165: one layer of brackets or parentheses, then one layer of
    quotes, then one trailing comma, each followed by [strip]. *)
Definition unwrap_brackets (value : string) : string :=
  if (startswith value "[" && endswith value "]")
     || (startswith value "(" && endswith value ")")
  then strip (slice_1_m1 value) else value.

Definition unwrap_quotes (value : string) : string :=
  if quoted value then strip (slice_1_m1 value) else value.

Definition drop_comma (value : string) : string :=
  if endswith value "," then strip (drop_last value) else value.

Definition normalize_value (value : string) : string :=
  drop_comma (unwrap_quotes (unwrap_brackets value)).

(** [value or None] *)
Definition or_none (value : string) : option string :=
  match value with
  | "" => None
  | _ => Some value
  end.

(** Lines 159-166, the body run on the first matching line. *)
Definition selection_value (stripped : string) : res (option string) :=
  after <- index (split1 ":" stripped) 1 ;;
  Ok (or_none (normalize_value (strip after))).

(** Lines 154-167, the loop. *)
Fixpoint scan_lines (lines : list string) : res (option string) :=
  match lines with
  | [] => Ok None
  | line :: rest =>
      match line with
      | "" => scan_lines rest
      | _ =>
          let stripped := strip line in
          if is_selection stripped then selection_value stripped
          else scan_lines rest
      end
  end.

Definition parse_selected_product_id (text : option string)
  : res (option string) :=
  match text with
  | None | Some "" => Ok None
  | Some text => scan_lines (splitlines text)
  end.

(** ** The selection statement, [SQL_TEMPLATE] (lines 11-86)

    SQL values of type STRING are [option string], [None] being NULL.  The
    repository does not declare the products table, so the types of
    [product_id], [price] and [similarity_score] are parameters, and each
    of these columns may hold NULL.  What BigQuery computes on them is its
    own: the casts to STRING, the integer literal of [IFNULL(price, 0)]
    read at the type of [price], and [ROUND(x, n)], a floating point
    operation. *)

Class Scalars : Type := {
  Id : Type;
  Price : Type;
  Score : Type;
  (** [CAST(product_id AS STRING)] *)
  id_string : Id -> string;
  (** an integer literal where a price is expected *)
  price_literal : Z -> Price;
  (** [CAST(price AS STRING)] *)
  price_string : Price -> string;
  (** [ROUND(score, n)] *)
  ROUND : Score -> Z -> Score;
  (** [CAST(score AS STRING)] *)
  score_string : Score -> string
}.

Module Sql.

(** [CONCAT]: NULL as soon as one argument is NULL. *)
Fixpoint CONCAT (args : list (option string)) : option string :=
  match args with
  | [] => Some ""
  | a :: rest =>
      match a, CONCAT rest with
      | Some x, Some y => Some (x ++ y)
      | _, _ => None
      end
  end.

Definition IFNULL {A : Type} (x : option A) (d : A) : A :=
  match x with
  | Some v => v
  | None => d
  end.

(** [CAST(x AS STRING)]: NULL for NULL. *)
Definition CAST {A : Type} (to_string : A -> string) (x : option A)
  : option string :=
  option_map to_string x.

(** [SUBSTR(x, 1, len)] *)
Definition SUBSTR_1 (x : option string) (len : nat) : option string :=
  option_map (substring 0 len) x.

Fixpoint non_null (values : list (option string)) : list string :=
  match values with
  | [] => []
  | Some v :: rest => v :: non_null rest
  | None :: rest => non_null rest
  end.

(** The aggregate of rows taken in the order of the list: NULL values are
    skipped, and the result is NULL when nothing is left. *)
Definition aggregate (rows : list (option string)) (sep : string)
  : option string :=
  match non_null rows with
  | [] => None
  | l => Some (join sep l)
  end.

(** [STRING_AGG(expr, sep)] without ORDER BY, as in the statement: the
    order in which the aggregate takes the rows is not fixed, so every
    arrangement of the rows gives a possible result. *)
Definition STRING_AGG (values : list (option string)) (sep : string)
  (result : option string) : Prop :=
  exists rows, Permutation rows values /\ result = aggregate rows sep.

End Sql.

Import Sql.

(** A row of [top_candidates] (lines 20-35), without [cosine_distance],
    which only orders the rows. *)
Record candidate `{Scalars} : Type := {
  product_id : option Id;
  title : option string;
  brand : option string;
  description : option string;
  price : option Price;
  similarity_score : option Score
}.

Definition block_separator : string := nl ++ nl ++ "---" ++ nl ++ nl.

Section Statement.
Context `{Scalars}.


(** Lines 39-45: one candidate in [found_products]. *)
Definition found_block (c : candidate) : option string :=
  CONCAT
    [ Some "Product ID: "; CAST id_string (product_id c); Some nl;
      Some "Title: "; Some (IFNULL (title c) ""); Some nl;
      Some "Brand: "; Some (IFNULL (brand c) ""); Some nl;
      Some "Price: $";
      Some (price_string (IFNULL (price c) (price_literal 0)));
      Some nl;
      Some "Similarity Score: ";
      CAST score_string
        (option_map (fun x => ROUND x 3) (similarity_score c)) ].

(** Lines 58-65: one candidate in the prompt. *)
Definition prompt_block (tc : candidate) : option string :=
  CONCAT
    [ Some "Product ID: "; CAST id_string (product_id tc); Some nl;
      Some "Title: "; Some (IFNULL (title tc) ""); Some nl;
      Some "Brand: "; Some (IFNULL (brand tc) ""); Some nl;
      Some "Price: $";
      Some (price_string (IFNULL (price tc) (price_literal 0)));
      Some nl;
      Some "Description: ";
      Some (IFNULL (SUBSTR_1 (description tc) 200)
                   "No description available");
      Some nl;
      Some "Similarity Score: ";
      CAST score_string
        (option_map (fun x => ROUND x 3) (similarity_score tc)) ].

(** Lines 53-80, the [CONCAT] around the aggregate of line 57. *)
Definition prompt_around (search_query : string)
  (candidates : option string) : option string :=
  CONCAT
    [ Some ("SEARCH QUERY: " ++ dq); Some search_query;
      Some (dq ++ nl ++ nl);
      Some ("TASK: From the following 10 similar products, "
            ++ "select the SINGLE best match for " ++ dq);
      Some search_query; Some (dq ++ "." ++ nl ++ nl);
      Some ("CANDIDATES:" ++ nl);
      candidates;
      Some (nl ++ nl);
      Some ("SELECTION CRITERIA:" ++ nl);
      Some ("- Best relevance to " ++ dq); Some search_query;
      Some (dq ++ nl);
      Some ("- Quality and features" ++ nl);
      Some ("- Value for money" ++ nl);
      Some ("- Brand reputation" ++ nl ++ nl);
      Some ("RESPONSE FORMAT:" ++ nl);
      Some ("SELECTED_PRODUCT_ID: [exact product_id]" ++ nl);
      Some ("PRODUCT_NAME: [title]" ++ nl);
      Some ("REASONING: [2-3 sentences]" ++ nl);
      Some ("CONFIDENCE: [High/Medium/Low]" ++ nl);
      Some ("KEY_FEATURES: [main features]" ++ nl ++ nl);
      Some "Choose exactly ONE product and be decisive." ].

(** Lines 53-81: the prompt, one row aggregated over the candidates; it
    is a value the statement may compute, not the value, the aggregate
    being free in its order. *)
Definition prompt (search_query : string) (tc : list candidate)
  (result : option string) : Prop :=
  exists candidates,
    STRING_AGG (map prompt_block tc) block_separator candidates
    /\ result = prompt_around search_query candidates.

(** Lines 38-47: the column [found_products]. *)
Definition found_summary (tc : list candidate) (result : option string)
  : Prop :=
  STRING_AGG (map found_block tc) block_separator result.

(** The row the statement returns. *)
Record selection_row : Type := {
  found_products : option string;
  selected_product : option string
}.

(** A row of the details statement (lines 207-212). *)
Record product : Type := {
  p_product_id : Id;
  p_title : option string;
  p_brand : option string;
  p_price : option Price;
  p_description : option string
}.

(** BigQuery as the pipeline meets it: the rows it returns for the
    selection statement run with a search query, and the products table
    the details statement reads.  How the selection statement is run (the
    embedding, the search, the generation, the rows that come back) is
    BigQuery's and is not modelled. *)
Record engine : Type := {
  selection_rows : string -> list selection_row;
  products : list product
}.

(** The details statement run with [@pid]. *)
Definition run_details (e : engine) (pid : string) : list product :=
  firstn 1
    (filter (fun p => String.eqb (id_string (p_product_id p)) pid)
            (products e)).

(** ** [fetch_selected_product] (lines 171-227) *)

(** The four names substituted into the statements. *)
Record config : Type := {
  project_id : string;
  dataset : string;
  embedding_model : string;
  llm_model : string
}.

(** The BigQuery client, as what [client.query(...).result()] gives for
    the two statements: the rows, or an error of the client. *)
Record client : Type := {
  query_selection : config -> string -> res (list selection_row);
  query_details : config -> string -> res (list product)
}.

Definition bigquery (e : engine) : client :=
  {| query_selection := fun _ q => Ok (selection_rows e q);
     query_details := fun _ pid => Ok (run_details e pid) |}.

Inductive client_call : Type :=
| QuerySelection (search_query : string)
| QueryDetails (pid : string).

Record selection_result : Type := {
  r_search_query : string;
  r_found_products : option string;
  r_selected_raw : string;
  r_selected_product_id : string;
  r_selected_product : option product
}.

(** A session with the client: the statements sent so far, and the
    outcome. *)
Definition session (A : Type) : Type := list client_call * res A.

Definition session_bind {A B : Type} (m : session A) (k : A -> session B)
  : session B :=
  match m with
  | (calls, Ok a) => let (calls', r) := k a in ((calls ++ calls')%list, r)
  | (calls, Raise e) => (calls, Raise e)
  end.

Definition pure {A : Type} (r : res A) : session A := ([], r).

Notation "x <~ c ;; k" := (session_bind c (fun x => k))
  (at level 61, c at next level, right associativity).

Definition unparseable_prefix : string :=
  "Could not parse SELECTED_PRODUCT_ID from LLM output. Full text: ".

Definition fetch_selected_product (c : client) (cfg : config)
  (search_query : string) : session selection_result :=
  result_iter <~ ([QuerySelection search_query],
                  query_selection c cfg search_query) ;;
  row <~ pure match hd_error result_iter with
              | None => Raise (RuntimeError "Query returned no rows")
              | Some row => Ok row
              end ;;
  let found := found_products row in
  let selected_text := selected_product row in
  selected_text <~
    pure (_extract_text_from_possible_json
            (Some (or_else selected_text ""))) ;;
  selected_id <~
    pure (parse_selected_product_id
            (Some (or_else (Some selected_text) ""))) ;;
  if negb (truthy selected_id) then
    pure (Raise (RuntimeError
                   (unparseable_prefix
                    ++ or_else (Some selected_text) "<empty>")))
  else
    let selected_id := or_else selected_id "" in
    details <~ ([QueryDetails selected_id],
                query_details c cfg selected_id) ;;
    let details_row := hd_error details in
    pure (Ok {| r_search_query := search_query;
                r_found_products := found;
                r_selected_raw := selected_text;
                r_selected_product_id := selected_id;
                r_selected_product := details_row |}).

End Statement.

(** ** Sample inputs *)

(** A JSON string literal without escapes. *)
Definition quote (s : string) : string := dq ++ s ++ dq.

(** The object whose only member is [text], and the response envelope with
    one candidate, one part. *)
Definition text_object : string :=
  "{" ++ quote "text" ++ ": " ++ quote "hello" ++ "}".

Definition candidates_object : string :=
  "{" ++ quote "candidates" ++ ":[{" ++ quote "content" ++ ":{"
  ++ quote "parts" ++ ":[{" ++ quote "text" ++ ":" ++ quote "hello"
  ++ "}]}}]}".

(** The keys are tried in order on an object whose [text] is a number and
    whose [content] and [result] are strings: [content] wins. *)
Definition keyed_object : string :=
  " {" ++ quote "result" ++ ": " ++ quote "r" ++ ", " ++ quote "text"
  ++ ": 5, " ++ quote "content" ++ ": " ++ quote "c" ++ "} ".

(** An object without any of the known keys: decoding succeeds, nothing is
    extracted. *)
Definition unknown_object : string :=
  "  {" ++ quote "answer" ++ ": " ++ quote "hello" ++ "}" ++ nl.

(** Two answers, the second one ignored, and a text without an answer. *)
Definition two_answers : string :=
  "NAME: foo" ++ nl ++ "  Selected_Product_ID : x" ++ nl
  ++ " Selected_Product_ID: (A-1) " ++ nl ++ "SELECTED_PRODUCT_ID: B-2".

(** [c in s] *)
Fixpoint has_char (c : ascii) (s : string) : bool :=
  match s with
  | "" => false
  | String a r => Ascii.eqb a c || has_char c r
  end.


(** ** The prompt as the specification lays it out

    The pieces the specification lists, as plain strings: the query echoed,
    the task statement, the candidates, the criteria and the response
    format. *)




(** One candidate with the identifier [i] and the score [x]: identifier,
    title, brand, price or the literal 0, the first 200 characters of the
    description or the placeholder, the score rounded to 3 places. *)
Definition rendered `{Scalars} (i : Id) (x : Score) (c : candidate)
  : string :=
  "Product ID: " ++ id_string i ++ nl
  ++ "Title: " ++ match title c with Some t => t | None => "" end ++ nl
  ++ "Brand: " ++ match brand c with Some b => b | None => "" end ++ nl
  ++ "Price: $"
  ++ price_string
       match price c with Some p => p | None => price_literal 0 end
  ++ nl
  ++ "Description: "
  ++ match description c with
     | Some d => substring 0 200 d
     | None => "No description available"
     end
  ++ nl
  ++ "Similarity Score: " ++ score_string (ROUND x 3).





(** ** Sample tables and clients

    A table whose identifiers and prices are held as text and whose scores
    are counted in ten-thousandths, rounded half up by [ROUND]. *)

(** [x] ten-thousandths with [n] decimals left, for [n] from 0 to 3. *)
Definition round_at (x : N) (n : Z) : N :=
  let unit :=
    match n with
    | 0%Z => 10000 | 1%Z => 1000 | 2%Z => 100 | 3%Z => 10 | _ => 1
    end%N in
  (unit * ((2 * x + unit) / (2 * unit)))%N.

(** A number of ten-thousandths written with a decimal point, without
    trailing zeros after the first decimal. *)
Definition show_score (x : N) : string :=
  let number := fun n => NilEmpty.string_of_uint (N.to_uint n) in
  let digit := fun k => number ((x / k) mod 10)%N in
  number (x / 10000)%N ++ "." ++ digit 1000%N
  ++ (if (x mod 1000 =? 0)%N then "" else digit 100%N)
  ++ (if (x mod 100 =? 0)%N then "" else digit 10%N)
  ++ (if (x mod 10 =? 0)%N then "" else digit 1%N).

#[local] Instance text_scalars : Scalars := {|
  Id := string;
  Price := string;
  Score := N;
  id_string := fun x => x;
  price_literal := fun z => NilZero.string_of_int (Z.to_int z);
  price_string := fun x => x;
  ROUND := round_at;
  score_string := show_score
|}.

Definition sink : candidate := {|
  product_id := Some "42";
  title := Some "Ceramic sink";
  brand := None;
  description := None;
  price := None;
  similarity_score := Some 8734%N
|}.


(** A row of the table without identifier. *)
Definition nameless : candidate := {|
  product_id := None;
  title := Some "Offcut";
  brand := None;
  description := None;
  price := None;
  similarity_score := Some 5000%N
|}.

Definition sample_config : config := {|
  project_id := "p";
  dataset := "d";
  embedding_model := "e";
  llm_model := "l"
|}.

(** A client that returns one selection row with the given generation
    output, and the given detail rows. *)
Definition stub_client (generated : option string) (details : list product)
  : client := {|
  query_selection := fun _ _ =>
    Ok [ {| found_products := Some "Product ID: 42";
            selected_product := generated |} ];
  query_details := fun _ _ => Ok details
|}.

(** A client whose selection statement returns one row that carries
    neither a candidate summary nor a generation output. *)
Definition no_candidates_client : client := {|
  query_selection := fun _ _ =>
    Ok [ {| found_products := None; selected_product := None |} ];
  query_details := fun _ _ => Ok []
|}.

(** ** Notions used in the proofs about the decoder *)

Definition scalar_token (t : Json.token) : Prop :=
  match t with
  | Json.TString _ | Json.TNumber _ | Json.TConst _ => True
  | _ => False
  end.

(** The kind of the outermost open container: [here] when the stack is
    empty, else the kind of its last frame. *)
Fixpoint bottom_arr (stk : list Json.frame) (here : bool) : bool :=
  match stk with
  | [] => here
  | Json.FArr _ :: stk' => bottom_arr stk' true
  | Json.FObj _ _ :: stk' => bottom_arr stk' false
  end.

Definition is_array (v : json) : bool :=
  match v with
  | JArray _ => true
  | _ => false
  end.

(** The reader is inside an outermost array, or has read one. *)
Definition in_array (st : Json.pstate) : bool :=
  match st with
  | Json.SValue stk => bottom_arr stk false
  | Json.SArrFirst stk | Json.SArrAfter _ stk => bottom_arr stk true
  | Json.SObjFirst stk | Json.SObjKey _ stk | Json.SColon _ _ stk
  | Json.SObjAfter _ stk => bottom_arr stk false
  | Json.SDone v => is_array v
  end.

Ltac split_ifs H :=
  repeat match type of H with
         | context [if ?b then _ else _] =>
             let E := fresh "E" in destruct b eqn:E
         end.

(** ** More notions used in the proofs about the decoder *)

(** One step of the scanner: the mode and the tokens after one
    character. *)
Definition lex1 (m : Json.lexmode) (toks : list Json.token) (c : ascii)
  : option (Json.lexmode * list Json.token) :=
  match m with
  | Json.LTop => Json.lex_top toks c
  | Json.LStr acc =>
      if Ascii.eqb c dquote then Some (Json.LTop, Json.TString acc :: toks)
      else if Ascii.eqb c "\" then Some (Json.LEsc acc, toks)
      else if nat_of_ascii c <? 32 then None
      else Some (Json.LStr (Json.snoc acc c), toks)
  | Json.LEsc acc =>
      if Ascii.eqb c "u" then Some (Json.LUni acc [], toks)
      else match Json.escape_char c with
           | Some d => Some (Json.LStr (Json.snoc acc d), toks)
           | None => None
           end
  | Json.LUni acc hex =>
      match Json.hex_value c, hex with
      | Some d, [a1; a2; a3] =>
          let n := ((a1 * 16 + a2) * 16 + a3) * 16 + d in
          if n <? 256
          then Some (Json.LStr (Json.snoc acc (ascii_of_nat n)), toks)
          else None
      | Some d, _ => Some (Json.LUni acc (hex ++ [d]), toks)
      | None, _ => None
      end
  | Json.LNum st acc =>
      if (match st with Json.NMinus => Ascii.eqb c "I" | _ => false end)
      then Some (Json.LConst "nfinity" Json.CNegInfinity, toks)
      else
        match Json.lex_num st c with
        | Some (inl st') => Some (Json.LNum st' (Json.snoc acc c), toks)
        | Some (inr _) => Json.lex_top (Json.TNumber acc :: toks) c
        | None => None
        end
  | Json.LConst rest k =>
      match rest with
      | String d rest' =>
          if Ascii.eqb c d then
            match rest' with
            | "" => Some (Json.LTop, Json.TConst k :: toks)
            | _ => Some (Json.LConst rest' k, toks)
            end
          else None
      | "" => None
      end
  end.

(** What a token is, as far as the value it opens goes. *)
Inductive token_kind : Type :=
| KBrace | KBracket | KString | KScalar | KOther.

Definition kind_of_token (t : Json.token) : token_kind :=
  match t with
  | Json.TLBrace => KBrace
  | Json.TLBracket => KBracket
  | Json.TString _ => KString
  | Json.TNumber _ | Json.TConst _ => KScalar
  | _ => KOther
  end.

(** The token the scanner is in the middle of. *)
Definition kind_of_mode (m : Json.lexmode) : option token_kind :=
  match m with
  | Json.LTop => None
  | Json.LStr _ | Json.LEsc _ | Json.LUni _ _ => Some KString
  | Json.LNum _ _ | Json.LConst _ _ => Some KScalar
  end.

(** The token a text starts with, by its first character. *)
Definition kind_of_char (c : ascii) : token_kind :=
  if Ascii.eqb c "{" then KBrace
  else if Ascii.eqb c "[" then KBracket
  else if Ascii.eqb c dquote then KString
  else if Ascii.eqb c "}" || Ascii.eqb c "]" || Ascii.eqb c ":"
          || Ascii.eqb c ","
  then KOther
  else KScalar.

(** The value a text decodes to, by its first token. *)
Definition kind_of_json (j : json) : token_kind :=
  match j with
  | JObject _ => KBrace
  | JArray _ => KBracket
  | JString _ => KString
  | _ => KScalar
  end.

Fixpoint bottom_obj (stk : list Json.frame) (here : bool) : bool :=
  match stk with
  | [] => here
  | Json.FArr _ :: stk' => bottom_obj stk' false
  | Json.FObj _ _ :: stk' => bottom_obj stk' true
  end.

Definition is_object (v : json) : bool :=
  match v with
  | JObject _ => true
  | _ => false
  end.

(** The reader is inside an outermost object, or has read one. *)
Definition in_object (st : Json.pstate) : bool :=
  match st with
  | Json.SValue stk => bottom_obj stk false
  | Json.SArrFirst stk | Json.SArrAfter _ stk => bottom_obj stk false
  | Json.SObjFirst stk | Json.SObjKey _ stk | Json.SColon _ _ stk
  | Json.SObjAfter _ stk => bottom_obj stk true
  | Json.SDone v => is_object v
  end.

(** ** More sample inputs *)

(** An array whose first element is an object with a numeric [content] and
    a string [text], followed by a string. *)
Definition array_of_objects : string :=
  "[{" ++ quote "text" ++ ": " ++ quote "first" ++ ", " ++ quote "content"
  ++ ": 1}, " ++ quote "second" ++ "]".

(** An envelope with two candidates: the first with a direct text and one
    part, the second a bare number, which is skipped. *)
Definition two_candidates : string :=
  "{" ++ quote "candidates" ++ ": [{" ++ quote "content" ++ ": {"
  ++ quote "parts" ++ ": [{" ++ quote "text" ++ ": " ++ quote "b" ++ "}]}, "
  ++ quote "text" ++ ": " ++ quote "a" ++ "}, 7]}".

(** An envelope whose first candidate is a number and whose second one
    has a text under every place the normaliser looks at, with a part that
    is not an object in between; the envelope itself has a number under
    one of the top-level keys. *)
Definition full_candidate : string :=
  "{" ++ quote "result" ++ ": 5, " ++ quote "candidates" ++ ": [5, {"
  ++ quote "ml_generate_text_result" ++ ": " ++ quote "e" ++ ", "
  ++ quote "content" ++ ": {" ++ quote "parts" ++ ": [{" ++ quote "text"
  ++ ": " ++ quote "c" ++ "}, 7, {" ++ quote "text" ++ ": " ++ quote "d"
  ++ "}]}, " ++ quote "output_text" ++ ": " ++ quote "b" ++ ", "
  ++ quote "text" ++ ": " ++ quote "a" ++ "}]}".

(** ** The candidates envelope as the specification lays it out

    What one element of [candidates] contributes: nothing when it is not
    an object; else the string under text, the string under output_text,
    the strings under text of the parts of content that are objects, and
    the string under ml_generate_text_result, in this order. *)

Definition found (o : option string) : list string :=
  match o with
  | Some v => [v]
  | None => []
  end.

Definition collected (cand : json) : list string :=
  match cand with
  | JObject c =>
      found (get_str c "text")
      ++ found (get_str c "output_text")
      ++ match dict_get c "content" with
         | Some (JObject content) =>
             match dict_get content "parts" with
             | Some (JArray parts) =>
                 flat_map (fun part =>
                             match part with
                             | JObject p => found (get_str p "text")
                             | _ => []
                             end) parts
             | _ => []
             end
         | _ => []
         end
      ++ found (get_str c "ml_generate_text_result")
  | _ => []
  end.

(** ** Notions used in the proofs about the parser *)

(** Every character of [s] satisfies [p]. *)
Fixpoint all_chars (p : ascii -> bool) (s : string) : bool :=
  match s with
  | "" => true
  | String c r => p c && all_chars p r
  end.

Definition not_linebreak (c : ascii) : bool := negb (is_linebreak c).

Definition not_space (c : ascii) : bool := negb (is_space c).

(** [s] lies on one line. *)
Definition one_line (s : string) : bool := all_chars not_linebreak s.

(** ** The pipeline seen from outside *)

Section Outside.
Context `{Scalars}.

(** The client that answers as [c] does, but with the first row only of
    every result. *)
Definition first_rows_only (c : client) : client :=
  {| query_selection := fun cfg q =>
       match query_selection c cfg q with
       | Ok rows => Ok (firstn 1 rows)
       | Raise e => Raise e
       end;
     query_details := fun cfg pid =>
       match query_details c cfg pid with
       | Ok rows => Ok (firstn 1 rows)
       | Raise e => Raise e
       end |}.

End Outside.

(** The candidate [c] with another description, another price, another
    score. *)
Definition with_description `{Scalars} (c : candidate) (d : option string)
  : candidate :=
  {| product_id := product_id c;
     title := title c;
     brand := brand c;
     description := d;
     price := price c;
     similarity_score := similarity_score c |}.



(** ** [main] (lines 231-272), once the arguments are parsed and the client
    is built

    The process is what it writes and the status it ends with.  [str(v)]
    of an identifier, of a price and of an exception belong to the client
    library and to Python and are taken as given. *)

Class Display `{Scalars} : Type := {
  id_str : Id -> string;
  price_str : Price -> string;
  exc_str : exn -> string
}.

Record process : Type := {
  stdout : string;
  stderr : string;
  exit_code : nat
}.

(** [print(s)] *)
Definition print (s : string) : string := s ++ nl.

(** [str(v)] of a nullable string: [None] prints as None. *)
Definition str_opt (o : option string) : string :=
  match o with
  | Some s => s
  | None => "None"
  end.

Section Main.
Context `{Display}.

(** Lines 268-270: the items of [dict(details_row.items())], in the order
    of the columns of the details statement. *)
Definition detail_lines (p : product) : list string :=
  [ "- product_id: " ++ id_str (p_product_id p);
    "- title: " ++ str_opt (p_title p);
    "- brand: " ++ str_opt (p_brand p);
    "- price: " ++ match p_price p with
                   | Some x => price_str x
                   | None => "None"
                   end;
    "- description: " ++ str_opt (p_description p) ].

(** Lines 256-272. *)
Definition report (result : selection_result) : string :=
  print ("Search: " ++ r_search_query result)
  ++ print ""
  ++ print ("Found candidates:" ++ nl)
  ++ print (or_else (r_found_products result) "<none>")
  ++ print ""
  ++ print ("LLM selection (raw):" ++ nl)
  ++ print (or_else (Some (r_selected_raw result)) "<none>")
  ++ print ""
  ++ print ("Selected product ID: "
            ++ or_else (Some (r_selected_product_id result)) "<none>")
  ++ print ""
  ++ match r_selected_product result with
     | Some p =>
         print "Selected product details:"
         ++ String.concat "" (map print (detail_lines p))
     | None => print "Selected product details: <not found>"
     end.

(** Lines 243-254 and the report: any exception of the pipeline is
    printed on the error stream and ends the process with status 1. *)
Definition main (c : client) (cfg : config) (search : string) : process :=
  match snd (fetch_selected_product c cfg search) with
  | Raise exc =>
      {| stdout := ""; stderr := print ("Error: " ++ exc_str exc);
         exit_code := 1 |}
  | Ok result => {| stdout := report result; stderr := ""; exit_code := 0 |}
  end.

End Main.

(** ** More sample tables and clients *)

Definition faucet : product := {|
  p_product_id := "41";
  p_title := Some "Brass faucet";
  p_brand := None;
  p_price := Some "19.5";
  p_description := None
|}.

Definition basin : product := {|
  p_product_id := "42";
  p_title := Some "Ceramic sink";
  p_brand := Some "Acme";
  p_price := None;
  p_description := Some "White"
|}.

(** An engine whose selection statement always answers 42. *)
Definition answering_engine : engine := {|
  selection_rows := fun _ =>
    [ {| found_products := Some "Product ID: 42";
         selected_product := Some (quote "SELECTED_PRODUCT_ID: 42") |} ];
  products := [faucet; basin]
|}.

(** A client whose detail statement fails. *)
Definition failing_details_client : client := {|
  query_selection := fun _ _ =>
    Ok [ {| found_products := None;
            selected_product := Some "SELECTED_PRODUCT_ID: 42" |} ];
  query_details := fun _ _ => Raise (ClientError "backend error")
|}.

#[local] Instance text_display : Display := {|
  id_str := fun x => x;
  price_str := fun x => x;
  exc_str := fun e =>
    match e with
    | RuntimeError msg | ClientError msg => msg
    | JSONDecodeError => "JSONDecodeError"
    | IndexError => "IndexError"
    end
|}.

(** ** JSON string escaping

    [TO_JSON_STRING] (line 49) writes a string between double quotes and
    escapes the quote, the backslash and the control characters; how it
    spells each escape is left open here: [escapes c e] says that [e] is
    one of the ways JSON has to write the character [c] inside a string. *)
Inductive escapes (c : ascii) : string -> Prop :=
| EscPlain :
    (32 <=? nat_of_ascii c) = true ->
    Ascii.eqb c dquote = false -> Ascii.eqb c "\" = false ->
    escapes c (String c "")
| EscShort (e : ascii) :
    Json.escape_char e = Some c ->
    escapes c (String "\" (String e ""))
| EscHex (h1 h2 h3 h4 : ascii) (d1 d2 d3 d4 : nat) :
    Json.hex_value h1 = Some d1 -> Json.hex_value h2 = Some d2 ->
    Json.hex_value h3 = Some d3 -> Json.hex_value h4 = Some d4 ->
    ((d1 * 16 + d2) * 16 + d3) * 16 + d4 = nat_of_ascii c ->
    escapes c
      (String "\" (String "u" (String h1 (String h2 (String h3
         (String h4 "")))))).

Fixpoint escape_all (esc : ascii -> string) (s : string) : string :=
  match s with
  | "" => ""
  | String c r => esc c ++ escape_all esc r
  end.

(** The JSON text of the string [s] under the escaping [esc]. *)
Definition json_string (esc : ascii -> string) (s : string) : string :=
  dq ++ escape_all esc s ++ dq.

(** One such escaping: the two-character escapes for the quote and the
    backslash, the hexadecimal escape for control characters. *)
Definition hex_digit (n : nat) : ascii :=
  ascii_of_nat (if n <? 10 then 48 + n else 87 + n).

Definition plain_escape (c : ascii) : string :=
  let n := nat_of_ascii c in
  if Ascii.eqb c dquote then String "\" (String dquote "")
  else if Ascii.eqb c "\" then String "\" (String "\" "")
  else if n <? 32
       then String "\" (String "u" (String "0" (String "0"
              (String (hex_digit (n / 16))
                 (String (hex_digit (n mod 16)) "")))))
       else String c "".

(** * Properties *)

(** ** Strings *)

Lemma startswith_cons (s : string) (c : ascii) :
  startswith s (String c "") = true -> exists r, s = String c r.
Proof.
  destruct s as [|a r]; simpl; [discriminate|].
  rewrite andb_true_r. intros E. apply Ascii.eqb_eq in E. subst a.
  now exists r.
Qed.

Lemma rstrip_head (s : string) (c : ascii) (r : string) :
  rstrip s = String c r -> exists r', s = String c r'.
Proof.
  destruct s as [|a s']; simpl; [discriminate|].
  destruct (rstrip s'); [destruct (is_space a)|]; intros E;
    inversion E; subst; eauto.
Qed.

Lemma lstrip_head (s : string) (c : ascii) (r : string) :
  lstrip s = String c r -> is_space c = false.
Proof.
  induction s as [|a s' IH]; simpl; [discriminate|].
  destruct (is_space a) eqn:Ea; [exact IH|].
  intros E. inversion E. now subst.
Qed.

Lemma strip_head (s : string) (c : ascii) (r : string) :
  strip s = String c r -> is_space c = false.
Proof.
  unfold strip. intros E. apply rstrip_head in E. destruct E as [r' E].
  now apply lstrip_head in E.
Qed.

Lemma ws_is_space (c : ascii) : Json.is_ws c = true -> is_space c = true.
Proof.
  unfold Json.is_ws, is_space. intros E.
  repeat (apply orb_true_iff in E; destruct E as [E|E]);
    apply Nat.eqb_eq in E; rewrite E; reflexivity.
Qed.

(** ** The decoder *)

Lemma lex_top_tokens toks c m toks' :
  Json.lex_top toks c = Some (m, toks') ->
  toks' = toks \/ exists t, toks' = t :: toks.
Proof.
  unfold Json.lex_top. intros E0. split_ifs E0;
    inversion E0; subst; eauto.
Qed.

Lemma lex_prefix (s : string) :
  forall m toks ts,
    Json.lex m toks s = Some ts -> exists ts', ts = (rev toks ++ ts')%list.
Proof.
  induction s as [|c r IH]; intros m toks ts.
  - destruct m; simpl; try discriminate.
    + intros E. inversion E. exists []. now rewrite app_nil_r.
    + destruct (Json.num_final st); [|discriminate].
      intros E. inversion E. simpl. now exists [Json.TNumber acc].
  - assert (K : forall m' t, Json.lex m' (t :: toks) r = Some ts ->
                             exists ts', ts = (rev toks ++ ts')%list).
    { intros m' t E. apply IH in E. destruct E as [ts' ->]. simpl.
      rewrite <- app_assoc. eauto. }
    destruct m; simpl.
    + destruct (Json.lex_top toks c) as [[m' toks']|] eqn:Et;
        [|discriminate].
      apply lex_top_tokens in Et. destruct Et as [->|[t ->]]; eauto.
    + intros E. split_ifs E; try discriminate; eauto.
    + intros E. split_ifs E; eauto.
      destruct (Json.escape_char c); [eauto|discriminate].
    + destruct (Json.hex_value c); [|discriminate].
      destruct hex as [|a1 [|a2 [|a3 [|a4 hex']]]]; eauto.
      intros E. split_ifs E; [eauto|discriminate].
    + intros E. split_ifs E; eauto.
      destruct (Json.lex_num st c) as [[st'|[]]|]; try discriminate; eauto.
      destruct (Json.lex_top (Json.TNumber acc :: toks) c)
        as [[m' toks']|] eqn:Et; [|discriminate].
      apply lex_top_tokens in Et. destruct Et as [->|[t ->]]; eauto.
      apply IH in E. destruct E as [ts' ->]. simpl.
      repeat rewrite <- app_assoc. eauto.
    + destruct rest as [|d rest']; [discriminate|].
      intros E. split_ifs E; try discriminate; eauto.
Qed.

Lemma lex_emitted (r : string) m t toks ts :
  Json.lex m (toks ++ [t])%list r = Some ts ->
  exists ts', ts = t :: ts'.
Proof.
  intros E. apply lex_prefix in E. destruct E as [ts' ->].
  rewrite rev_app_distr. simpl. eauto.
Qed.

(** Inside a string, a number or a literal, the next token the scanner
    produces is that string, number or literal. *)
Lemma lex_first_scalar (s : string) :
  forall m ts,
    m <> Json.LTop -> Json.lex m [] s = Some ts ->
    exists t ts', ts = t :: ts' /\ scalar_token t.
Proof.
  induction s as [|c r IH]; intros m ts Hm.
  - destruct m; simpl; try discriminate; [contradiction|].
    destruct (Json.num_final st); [|discriminate].
    intros E. inversion E. simpl. eexists _, _. split; [reflexivity|exact I].
  - assert (K : forall m' t, scalar_token t ->
                Json.lex m' [t] r = Some ts ->
                exists t ts', ts = t :: ts' /\ scalar_token t).
    { intros m' t Ht E. apply (lex_emitted r m' t []) in E.
      destruct E as [ts' ->]. eauto. }
    assert (J : forall m', m' <> Json.LTop -> Json.lex m' [] r = Some ts ->
                exists t ts', ts = t :: ts' /\ scalar_token t)
      by exact (fun m' => IH m' ts).
    destruct m; simpl; [contradiction| | | | |].
    + intros E. split_ifs E; try discriminate.
      * refine (K _ _ _ E); exact I.
      * apply J in E; [exact E|discriminate].
      * apply J in E; [exact E|discriminate].
    + intros E. split_ifs E.
      * apply J in E; [exact E|discriminate].
      * destruct (Json.escape_char c); [|discriminate].
        apply J in E; [exact E|discriminate].
    + destruct (Json.hex_value c); [|discriminate].
      intros E.
      destruct hex as [|a1 [|a2 [|a3 [|a4 hex']]]];
        try (apply J in E; [exact E|discriminate]).
      split_ifs E; [|discriminate].
      apply J in E; [exact E|discriminate].
    + intros E. split_ifs E.
      * apply J in E; [exact E|discriminate].
      * destruct (Json.lex_num st c) as [[st'|[]]|]; try discriminate.
        -- apply J in E; [exact E|discriminate].
        -- destruct (Json.lex_top [Json.TNumber acc] c)
             as [[m' toks']|] eqn:Et; [|discriminate].
           apply lex_top_tokens in Et. destruct Et as [->|[t ->]].
           ++ refine (K _ _ _ E); exact I.
           ++ apply (lex_emitted r m' (Json.TNumber acc) [t]) in E.
              destruct E as [ts' ->]. eexists _, _.
              split; [reflexivity|exact I].
    + destruct rest as [|d rest']; [discriminate|].
      intros E. split_ifs E; try discriminate.
      * refine (K _ _ _ E); exact I.
      * apply J in E; [exact E|discriminate].
Qed.

(** A text that does not begin with white space and whose first token is
    an opening brace begins with that brace. *)
Lemma lex_brace_first (c : ascii) (r : string) ts :
  Json.is_ws c = false ->
  Json.lex Json.LTop [] (String c r) = Some (Json.TLBrace :: ts) ->
  c = "{"%char.
Proof.
  intros Hws E. simpl in E. unfold Json.lex_top in E. rewrite Hws in E.
  destruct (Ascii.eqb c "{") eqn:Eb; [now apply Ascii.eqb_eq in Eb|].
  exfalso.
  split_ifs E; try discriminate;
    try (apply (lex_emitted r _ _ []) in E; destruct E as [ts' E];
         discriminate);
    (apply lex_first_scalar in E; [|discriminate];
     destruct E as (t & ts' & E & Ht); inversion E; subst t;
     exact Ht).
Qed.

Lemma bottom_arr_mono stk :
  bottom_arr stk false = true -> bottom_arr stk true = true.
Proof. destruct stk as [|[] stk']; simpl; auto. Qed.

Lemma in_array_deliver v stk :
  in_array (Json.deliver v stk) = bottom_arr stk (is_array v).
Proof. destruct stk as [|[] stk']; reflexivity. Qed.

Lemma in_array_step st t st' :
  Json.step st t = Some st' -> in_array st = true -> in_array st' = true.
Proof.
  destruct st; simpl; intros E Hin;
    destruct t; simpl in E; inversion E; subst; clear E;
    rewrite ?in_array_deliver; simpl;
    auto using bottom_arr_mono;
    try (destruct stk as [|[] stk']; simpl in *; auto; discriminate).
Qed.

Lemma read_in_array ts :
  forall st v, Json.read st ts = Some v -> in_array st = true ->
               is_array v = true.
Proof.
  induction ts as [|t ts IH]; intros st v; simpl.
  - destruct st; try discriminate. intros E. now inversion E.
  - destruct (Json.step st t) as [st'|] eqn:Es; [|discriminate].
    intros E Hin. apply (IH st' v E). eapply in_array_step; eauto.
Qed.

Lemma read_done ts v w : Json.read (Json.SDone v) ts = Some w -> w = v.
Proof. destruct ts; simpl; [|discriminate]. intros E. now inversion E. Qed.

(** A value that decodes to an object starts, after white space, with an
    opening brace. *)
Lemma decode_object_first_token ts members :
  Json.read (Json.SValue []) ts = Some (JObject members) ->
  exists ts', ts = Json.TLBrace :: ts'.
Proof.
  destruct ts as [|t ts']; simpl; [discriminate|].
  destruct t; simpl; try discriminate; eauto; intros E.
  - apply (read_in_array ts') in E; [discriminate|reflexivity].
  - apply read_done in E. discriminate.
  - apply read_done in E. discriminate.
  - apply read_done in E. destruct c; discriminate.
Qed.

Lemma loads_object_brace (s : string) members :
  json_loads (strip s) = Ok (JObject members) ->
  startswith (strip s) "{" = true.
Proof.
  unfold json_loads, Json.decode.
  destruct (strip s) as [|c r] eqn:Et.
  - simpl. discriminate.
  - destruct (Json.lex Json.LTop [] (String c r)) as [ts|] eqn:El;
      [|discriminate].
    destruct (Json.read (Json.SValue []) ts) as [v|] eqn:Er;
      [|discriminate].
    intros E. inversion E. subst v.
    apply decode_object_first_token in Er. destruct Er as [ts' ->].
    apply lex_brace_first in El.
    + subst c. reflexivity.
    + apply strip_head in Et.
      destruct (Json.is_ws c) eqn:Ew; [|reflexivity].
      apply ws_is_space in Ew. congruence.
Qed.

(** ** The normaliser *)

Lemma first_str_split members keys :
  forall before key after v,
    keys = (before ++ key :: after)%list ->
    Forall (fun k => get_str members k = None) before ->
    get_str members key = Some v ->
    first_str members keys = Some v.
Proof.
  intros before. revert keys.
  induction before as [|k before IH]; intros keys key after v -> Hb Hk;
    simpl.
  - now rewrite Hk.
  - inversion Hb as [|? ? Hk0 Hb']; subst. rewrite Hk0. eauto.
Qed.

Lemma extract_loads_raise (s : string) (e : exn) :
  json_loads (strip s) = Raise e ->
  _extract_text_from_possible_json (Some s) = Ok s.
Proof.
  intros E. unfold _extract_text_from_possible_json, try_quoted,
    try_structured. rewrite E.
  destruct (quoted (strip s));
    destruct (startswith (strip s) "{" || startswith (strip s) "[");
    reflexivity.
Qed.

Lemma extract_object (s : string) members :
  json_loads (strip s) = Ok (JObject members) ->
  _extract_text_from_possible_json (Some s)
  = match catch_pass (try_structured (strip s)) with
    | Some v => Ok v
    | None => Ok s
    end.
Proof.
  intros E. pose proof (loads_object_brace s E) as Hb.
  unfold _extract_text_from_possible_json, try_quoted.
  rewrite E, Hb. simpl. destruct (quoted (strip s)); reflexivity.
Qed.

(** C4, as the specification states it, fails: on the fallback branch the
    function returns its argument, not the trimmed text.  The text made of
    a space, the malformed JSON that opens a brace, and a space does not
    decode, and comes back with both spaces. *)
Lemma fallback_keeps_whitespace :
  json_loads (strip " {bad ") = Raise JSONDecodeError
  /\ strip " {bad " = "{bad"
  /\ _extract_text_from_possible_json (Some " {bad ") = Ok " {bad "
  /\ _extract_text_from_possible_json (Some " {bad ")
     <> Ok (strip " {bad ").
Proof. repeat split; try reflexivity. discriminate. Qed.

(** C4, amended: the result is the original argument unchanged,
    surrounding white space included, in each of the three ways the
    function has to fall back: the trimmed text is neither wrapped in
    quotes nor opened by a brace or a bracket, so that nothing is decoded;
    decoding the trimmed text fails; or the text decodes and neither
    extraction yields a string.  A failure of the decoder is read off the
    model for the texts on which the model is the decoder of Python. *)
Theorem fallback_returns_input (s : string) :
  (quoted (strip s) = false
   /\ startswith (strip s) "{" || startswith (strip s) "[" = false)
  \/ (narrow_escapes (strip s) = true
      /\ json_loads (strip s) = Raise JSONDecodeError)
  \/ (exists v,
        json_loads (strip s) = Ok v
        /\ catch_pass (try_quoted (strip s)) = None
        /\ catch_pass (try_structured (strip s)) = None) ->
  _extract_text_from_possible_json (Some s) = Ok s.
Proof.
  intros [[Hq Hb]|[[_ E]|(v & _ & E1 & E2)]].
  - unfold _extract_text_from_possible_json. now rewrite Hq, Hb.
  - exact (extract_loads_raise s E).
  - unfold _extract_text_from_possible_json. rewrite E1, E2.
    destruct (quoted (strip s));
      destruct (startswith (strip s) "{" || startswith (strip s) "[");
      reflexivity.
Qed.

Lemma fallback_returns_input_witness :
  _extract_text_from_possible_json (Some "  plain text ")
  = Ok "  plain text "
  /\ _extract_text_from_possible_json (Some " {bad ") = Ok " {bad "
  /\ _extract_text_from_possible_json (Some unknown_object)
     = Ok unknown_object.
Proof.
  split; [|split].
  - apply (fallback_returns_input "  plain text "). left.
    split; reflexivity.
  - apply (fallback_returns_input " {bad "). right. left.
    split; reflexivity.
  - apply (fallback_returns_input unknown_object). right. right.
    exists (JObject [("answer", JString "hello")]).
    split; [|split]; reflexivity.
Defined.

Lemma loads_single_quote (t : string) :
  startswith t "'" = true -> json_loads t = Raise JSONDecodeError.
Proof.
  intros E. apply startswith_cons in E. destruct E as [r ->]. reflexivity.
Qed.

(** C10: a text that, once trimmed, is wrapped in single quotes passes the
    test of the first branch but never decodes as JSON, so the unwrapping
    does not fire and the argument is returned unchanged, quotes
    attached. *)
Theorem single_quoted_unchanged (s : string) :
  startswith (strip s) "'" = true ->
  endswith (strip s) "'" = true ->
  quoted (strip s) = true
  /\ json_loads (strip s) = Raise JSONDecodeError
  /\ catch_pass (try_quoted (strip s)) = None
  /\ _extract_text_from_possible_json (Some s) = Ok s.
Proof.
  intros Hs He. pose proof (loads_single_quote _ Hs) as E.
  repeat split.
  - unfold quoted. rewrite Hs, He. apply orb_true_r.
  - exact E.
  - unfold try_quoted. now rewrite E.
  - exact (extract_loads_raise s E).
Qed.

Lemma single_quoted_unchanged_witness :
  quoted (strip "'hello'") = true
  /\ json_loads (strip "'hello'") = Raise JSONDecodeError
  /\ catch_pass (try_quoted (strip "'hello'")) = None
  /\ _extract_text_from_possible_json (Some "'hello'") = Ok "'hello'".
Proof.
  apply (single_quoted_unchanged "'hello'"); reflexivity.
Defined.

(** ** The selection parser *)

Lemma lower_char_colon (a : ascii) : lower_char a = ":"%char -> a = ":"%char.
Proof.
  destruct a as [[] [] [] [] [] [] [] []]; vm_compute; intros E;
    first [reflexivity | discriminate].
Qed.

Lemma lower_prefix_colon (p : string) :
  forall s, startswith (lower s) p = true -> has_char ":" p = true ->
            has_char ":" s = true.
Proof.
  induction p as [|b p IH]; intros s; [discriminate|].
  destruct s as [|a s']; [discriminate|].
  cbn [lower startswith has_char].
  intros E Hp. apply andb_true_iff in E. destruct E as [Ea Es].
  apply Ascii.eqb_eq in Ea.
  apply orb_true_iff in Hp. destruct Hp as [Hb|Hp].
  - apply Ascii.eqb_eq in Hb. rewrite Hb in Ea.
    apply lower_char_colon in Ea. subst a. reflexivity.
  - rewrite (IH s' Es Hp). apply orb_true_r.
Qed.

Lemma split1_has_char (sep : ascii) (s : string) :
  has_char sep s = true -> exists a b, split1 sep s = [a; b].
Proof.
  induction s as [|c r IH]; simpl; [discriminate|].
  destruct (Ascii.eqb c sep); simpl; [eauto|].
  intros E. destruct (IH E) as (a & b & ->). eauto.
Qed.

Lemma split1_app (sep : ascii) (before after : string) :
  has_char sep before = false ->
  split1 sep (before ++ String sep after) = [before; after].
Proof.
  induction before as [|c r IH]; simpl.
  - now rewrite Ascii.eqb_refl.
  - intros E. apply orb_false_iff in E. destruct E as [Ec Er].
    now rewrite Ec, (IH Er).
Qed.

Lemma selection_value_total (stripped : string) :
  is_selection stripped = true ->
  exists r, selection_value stripped = Ok r.
Proof.
  intros E. apply lower_prefix_colon in E; [|reflexivity].
  apply split1_has_char in E. destruct E as (a & b & E).
  unfold selection_value. rewrite E. simpl. eauto.
Qed.

Lemma scan_lines_total (lines : list string) :
  exists r, scan_lines lines = Ok r.
Proof.
  induction lines as [|line rest IH]; simpl; [eauto|].
  destruct line as [|c l]; [exact IH|].
  destruct (is_selection (strip (String c l))) eqn:E; [|exact IH].
  now apply selection_value_total.
Qed.

Lemma parse_scan (text : string) :
  parse_selected_product_id (Some text) = scan_lines (splitlines text).
Proof. destruct text; reflexivity. Qed.

Lemma scan_lines_skip (pre : list string) :
  forall rest,
    Forall (fun l => is_selection (strip l) = false) pre ->
    scan_lines (pre ++ rest) = scan_lines rest.
Proof.
  induction pre as [|l pre IH]; intros rest Hp; [reflexivity|].
  inversion Hp as [|? ? Hl Hp']; subst. simpl.
  destruct l as [|c l']; [now apply IH|].
  rewrite Hl. now apply IH.
Qed.

Lemma scan_lines_hit (line : string) (post : list string) :
  is_selection (strip line) = true ->
  scan_lines (line :: post) = selection_value (strip line).
Proof.
  destruct line as [|c l]; [discriminate|].
  intros E. simpl scan_lines. now rewrite E.
Qed.

(** Inside the second [try] nothing but the decoder raises: [obj[0]] is
    guarded by the test that [obj] is not empty. *)
Lemma try_structured_raise (t : string) (e : exn) :
  try_structured t = Raise e -> json_loads t = Raise e.
Proof.
  unfold try_structured. destruct (json_loads t) as [obj|e']; cbn [bind];
    [|now intros [= ->]].
  destruct obj as [| | | |items|members]; try discriminate.
  - destruct items as [|first items']; simpl; [discriminate|].
    destruct first; discriminate.
  - destruct (first_str members object_keys); [discriminate|].
    destruct (dict_get members "candidates") as [[| | | |[|c cs]|]|];
      try discriminate.
    destruct (flat_map candidate_texts (c :: cs)); discriminate.
Qed.

(** C5: the parsing layer never raises.  For every argument, [None]
    included, the normaliser returns a string and the parser returns an
    identifier or nothing; no exception leaves either function.  The
    decoder does raise inside the normaliser, on malformed JSON, and is
    absorbed there. *)
Theorem parsing_never_raises :
  (forall s : option string,
     exists v, _extract_text_from_possible_json s = Ok v)
  /\ (forall text : option string,
        exists r, parse_selected_product_id text = Ok r)
  /\ try_structured "{bad" = Raise JSONDecodeError.
Proof.
  repeat split.
  - intros [s|]; simpl; [|eauto].
    destruct (if quoted (strip s) then _ else _); [eauto|].
    destruct (if _ || _ then _ else _); eauto.
  - intros [text|]; [|simpl; eauto].
    rewrite parse_scan. apply scan_lines_total.
Qed.

Lemma first_colon_split (s : string) :
  has_char ":" s = true ->
  exists before after,
    s = before ++ String ":" after /\ has_char ":" before = false.
Proof.
  induction s as [|c r IH]; [discriminate|].
  cbn [has_char]. destruct (Ascii.eqb c ":") eqn:Ec.
  - apply Ascii.eqb_eq in Ec. subst c. intros _. now exists "", r.
  - intros E. destruct (IH E) as (before & after & -> & Hb).
    exists (String c before), after. cbn [has_char append].
    now rewrite Ec, Hb.
Qed.

(** C2: the first line that, trimmed and lowered, starts with the key
    decides the result.  Whatever follows it, the result is the normalised
    text after the first colon of that line, or nothing when that text is
    empty; when no line matches, or there is no text, the result is
    nothing. *)
Theorem first_selection_line_wins (text : string) :
  (forall pre line post,
     splitlines text = (pre ++ line :: post)%list ->
     Forall (fun l => is_selection (strip l) = false) pre ->
     is_selection (strip line) = true ->
     exists before after,
       strip line = before ++ String ":" after
       /\ has_char ":" before = false
       /\ parse_selected_product_id (Some text)
          = Ok (let value := normalize_value (strip after) in
                if String.eqb value "" then None else Some value))
  /\ (Forall (fun l => is_selection (strip l) = false) (splitlines text) ->
      parse_selected_product_id (Some text) = Ok None)
  /\ parse_selected_product_id None = Ok None.
Proof.
  repeat split.
  - intros pre line post Hl Hpre Hline.
    pose proof (lower_prefix_colon _ _ Hline eq_refl) as Hc.
    destruct (first_colon_split _ Hc) as (before & after & Hs & Hb).
    exists before, after. repeat split; [exact Hs|exact Hb|].
    rewrite parse_scan, Hl, scan_lines_skip, scan_lines_hit by assumption.
    unfold selection_value. rewrite Hs, split1_app by assumption. simpl.
    now destruct (normalize_value (strip after)).
  - intros Hall. rewrite parse_scan.
    rewrite <- (app_nil_r (splitlines text)).
    now rewrite scan_lines_skip by assumption.
Qed.

Lemma first_selection_line_wins_witness :
  parse_selected_product_id (Some two_answers) = Ok (Some "A-1")
  /\ parse_selected_product_id (Some "NAME: foo") = Ok None.
Proof.
  split.
  - destruct (first_selection_line_wins two_answers) as (H & _ & _).
    destruct (H ["NAME: foo"; "  Selected_Product_ID : x"]
                " Selected_Product_ID: (A-1) "
                ["SELECTED_PRODUCT_ID: B-2"])
      as (before & after & Hs & Hb & E).
    + reflexivity.
    + repeat constructor.
    + reflexivity.
    + pose proof (split1_app ":" before after Hb) as Hsp.
      rewrite <- Hs in Hsp. vm_compute in Hsp.
      injection Hsp as _ Ha. subst after. exact E.
  - destruct (first_selection_line_wins "NAME: foo") as (_ & H & _).
    apply H. repeat constructor.
Defined.

Lemma endswith_unique (s : string) (c d : ascii) :
  endswith s c = true -> endswith s d = true -> c = d.
Proof.
  unfold endswith. destruct (last_char s) as [e|]; [|discriminate].
  intros Ec Ed. apply Ascii.eqb_eq in Ec, Ed. congruence.
Qed.

Lemma endswith_other (s : string) (c d : ascii) :
  endswith s c = true -> c <> d -> endswith s d = false.
Proof.
  intros Ec Hcd. destruct (endswith s d) eqn:Ed; [|reflexivity].
  now destruct (Hcd (@endswith_unique s c d Ec Ed)).
Qed.

(** C3, as the specification states it, fails on its first example: the
    value is the quoted 7 followed by a comma, it does not end with a quote,
    so the quotes stay and only the comma goes. *)
Lemma quoted_value_with_comma_keeps_quotes :
  parse_selected_product_id (Some "selected_product_id: '7',")
  = Ok (Some "'7'")
  /\ parse_selected_product_id (Some "selected_product_id: '7',")
     <> Ok (Some "7").
Proof. split; [reflexivity|discriminate]. Qed.

(** C3, amended: the key is matched without regard to case; brackets or
    parentheses, then quotes, are removed when they wrap the whole value,
    and a trailing comma is removed last.  A value that ends with a comma
    therefore keeps its wrapping: the first example yields the 7 still in
    single quotes, the second yields 42. *)
Theorem normalization_order :
  parse_selected_product_id (Some "selected_product_id: '7',")
  = Ok (Some "'7'")
  /\ parse_selected_product_id
       (Some ("SELECTED_PRODUCT_ID: [42]" ++ nl ++ "OTHER: x"))
     = Ok (Some "42")
  /\ (forall value,
        endswith value "," = true ->
        normalize_value value = strip (drop_last value)).
Proof.
  repeat split.
  intros value E.
  assert (Hb : unwrap_brackets value = value).
  { unfold unwrap_brackets.
    rewrite (@endswith_other value "," "]" E) by discriminate.
    rewrite (@endswith_other value "," ")" E) by discriminate.
    now rewrite !andb_false_r. }
  assert (Hq : unwrap_quotes value = value).
  { unfold unwrap_quotes, quoted.
    rewrite (@endswith_other value "," dquote E) by discriminate.
    rewrite (@endswith_other value "," "'" E) by discriminate.
    now rewrite !andb_false_r. }
  unfold normalize_value, drop_comma. now rewrite Hb, Hq, E.
Qed.

Lemma normalization_order_witness : normalize_value "'7'," = "'7'".
Proof.
  destruct normalization_order as (_ & _ & H).
  apply (H "'7',"). reflexivity.
Defined.

(** ** The pipeline *)

Lemma extract_total (s : option string) :
  exists v, _extract_text_from_possible_json s = Ok v.
Proof.
  destruct s as [s|]; simpl; [|eauto].
  destruct (if quoted (strip s) then _ else _); [eauto|].
  destruct (if _ || _ then _ else _); eauto.
Qed.

Lemma parse_total (text : string) :
  exists r, parse_selected_product_id (Some text) = Ok r.
Proof. rewrite parse_scan. apply scan_lines_total. Qed.

Section Pipeline.
Context `{Scalars}.

Lemma or_else_some (s : string) : or_else (Some s) "" = s.
Proof. now destruct s. Qed.

Lemma scan_lines_nonempty (lines : list string) (id : string) :
  scan_lines lines = Ok (Some id) -> id <> "".
Proof.
  induction lines as [|line rest IH]; simpl; [discriminate|].
  destruct line as [|c l]; [exact IH|].
  destruct (is_selection (strip (String c l))); [|exact IH].
  unfold selection_value.
  destruct (index (split1 ":" (strip (String c l))) 1) as [after|];
    simpl; [|discriminate].
  destruct (normalize_value (strip after)); simpl; [discriminate|].
  intros E. inversion E. discriminate.
Qed.

Lemma parse_nonempty (text id : string) :
  parse_selected_product_id (Some text) = Ok (Some id) -> id <> "".
Proof. rewrite parse_scan. apply scan_lines_nonempty. Qed.

Lemma fetch_unfold (c : client) (cfg : config) (q : string) :
  fetch_selected_product c cfg q
  = match query_selection c cfg q with
    | Raise e => ([QuerySelection q], Raise e)
    | Ok [] =>
        ([QuerySelection q], Raise (RuntimeError "Query returned no rows"))
    | Ok (row :: _) =>
        match _extract_text_from_possible_json
                (Some (or_else (selected_product row) "")) with
        | Raise e => ([QuerySelection q], Raise e)
        | Ok text =>
            match parse_selected_product_id (Some text) with
            | Raise e => ([QuerySelection q], Raise e)
            | Ok None | Ok (Some "") =>
                ([QuerySelection q],
                 Raise (RuntimeError
                          (unparseable_prefix
                           ++ or_else (Some text) "<empty>")))
            | Ok (Some id) =>
                match query_details c cfg id with
                | Raise e => ([QuerySelection q; QueryDetails id], Raise e)
                | Ok details =>
                    ([QuerySelection q; QueryDetails id],
                     Ok {| r_search_query := q;
                           r_found_products := found_products row;
                           r_selected_raw := text;
                           r_selected_product_id := id;
                           r_selected_product := hd_error details |})
                end
            end
        end
    end.
Proof.
  unfold fetch_selected_product.
  destruct (query_selection c cfg q) as [[|row rest]|e]; try reflexivity.
  cbn [session_bind pure hd_error app].
  destruct (_extract_text_from_possible_json _) as [text|e];
    [|reflexivity].
  cbn [session_bind pure app]. rewrite or_else_some.
  destruct (parse_selected_product_id (Some text)) as [[[|a id]|]|e];
    try reflexivity.
  cbn [session_bind pure app truthy negb or_else].
  destruct (query_details c cfg (String a id)); reflexivity.
Qed.

(** C6: the guard of lines 190-193 looks at the rows of the statement, not
    at the candidates.  When the statement returns no row the pipeline
    fails at once with the runtime error saying so and sends no further
    statement; and it fails in this way, after the one statement, only
    then, or when the client itself raised that error.  A row that comes
    back passes the guard whatever stands behind it: with a row that
    carries no generation output the pipeline goes on to the parser and
    fails there, with the error for an unparseable selection. *)
Theorem no_rows_guard_tests_rows (c : client) (cfg : config) (q : string) :
  (query_selection c cfg q = Ok [] ->
   fetch_selected_product c cfg q
   = ([QuerySelection q], Raise (RuntimeError "Query returned no rows")))
  /\ (fetch_selected_product c cfg q
      = ([QuerySelection q], Raise (RuntimeError "Query returned no rows")) ->
      query_selection c cfg q = Ok []
      \/ query_selection c cfg q
         = Raise (RuntimeError "Query returned no rows"))
  /\ (forall row rest,
        query_selection c cfg q = Ok (row :: rest) ->
        selected_product row = None ->
        fetch_selected_product c cfg q
        = ([QuerySelection q],
           Raise (RuntimeError (unparseable_prefix ++ "<empty>")))).
Proof.
  split; [|split].
  - intros E. rewrite fetch_unfold. now rewrite E.
  - rewrite fetch_unfold.
    destruct (query_selection c cfg q) as [[|row rest]|e0].
    + now left.
    + destruct (extract_total (Some (or_else (selected_product row) "")))
        as [text ->].
      destruct (parse_total text) as [r ->].
      destruct r as [[|a id]|]; try discriminate.
      destruct (query_details c cfg (String a id)); discriminate.
    + intros E. right. now inversion E.
  - intros row rest E Hs. rewrite fetch_unfold. now rewrite E, Hs.
Qed.

(** C7, amended: when the parser finds no identifier, the pipeline fails
    with the runtime error whose message ends with the full normalised
    text, or with the marker for empty when that text is empty; it sends no
    detail lookup and returns no result.  The error is raised whether or
    not the generation output was empty.  The generation output is one on
    which the decoder of the model is the decoder of Python. *)
Theorem unparseable_selection_fails
  (c : client) (cfg : config) (q : string)
  (row : selection_row) (rest : list selection_row) (text : string) :
  query_selection c cfg q = Ok (row :: rest) ->
  narrow_escapes (strip (or_else (selected_product row) "")) = true ->
  _extract_text_from_possible_json (Some (or_else (selected_product row) ""))
  = Ok text ->
  parse_selected_product_id (Some text) = Ok None ->
  fetch_selected_product c cfg q
  = ([QuerySelection q],
     Raise (RuntimeError
              (unparseable_prefix
               ++ (if String.eqb text "" then "<empty>" else text)))).
Proof.
  intros Eq _ Et Ep. unfold fetch_selected_product.
  rewrite Eq. cbn [session_bind pure hd_error app]. rewrite Et.
  cbn [session_bind pure app]. rewrite or_else_some, Ep.
  cbn [session_bind pure app truthy negb]. now destruct text.
Qed.

(** C8: an identifier without a record is a success.  When the parser
    yields an identifier and the detail statement returns no row, the
    pipeline returns a result with that identifier and no detail record. *)
Theorem missing_details_is_success
  (c : client) (cfg : config) (q : string)
  (row : selection_row) (rest : list selection_row) (text id : string) :
  query_selection c cfg q = Ok (row :: rest) ->
  _extract_text_from_possible_json (Some (or_else (selected_product row) ""))
  = Ok text ->
  parse_selected_product_id (Some text) = Ok (Some id) ->
  query_details c cfg id = Ok [] ->
  fetch_selected_product c cfg q
  = ([QuerySelection q; QueryDetails id],
     Ok {| r_search_query := q;
           r_found_products := found_products row;
           r_selected_raw := text;
           r_selected_product_id := id;
           r_selected_product := None |}).
Proof.
  intros Eq Et Ep Ed. pose proof (parse_nonempty _ Ep) as Hid.
  unfold fetch_selected_product.
  rewrite Eq. cbn [session_bind pure hd_error app]. rewrite Et.
  cbn [session_bind pure app]. rewrite or_else_some, Ep.
  destruct id as [|a id']; [now destruct Hid|].
  cbn [session_bind pure app truthy negb or_else]. now rewrite Ed.
Qed.

End Pipeline.

Lemma no_rows_guard_tests_rows_witness :
  fetch_selected_product
    {| query_selection := fun _ _ => Ok [];
       query_details := fun _ _ => Ok [] |}
    sample_config "ceramic sink"
  = ([QuerySelection "ceramic sink"],
     Raise (RuntimeError "Query returned no rows"))
  /\ fetch_selected_product no_candidates_client sample_config
       "ceramic sink"
     = ([QuerySelection "ceramic sink"],
        Raise (RuntimeError (unparseable_prefix ++ "<empty>"))).
Proof.
  split.
  - destruct (@no_rows_guard_tests_rows text_scalars
                {| query_selection := fun _ _ => Ok [];
                   query_details := fun _ _ => Ok [] |}
                sample_config "ceramic sink") as (Hnone & _ & _).
    apply Hnone. reflexivity.
  - destruct (@no_rows_guard_tests_rows text_scalars no_candidates_client
                sample_config "ceramic sink") as (_ & _ & Hrow).
    apply (Hrow {| found_products := None; selected_product := None |} []);
      reflexivity.
Defined.

(** C7, as the specification states it, fails on its last part: the error
    is raised on an empty generation too.  When the statement returns NULL
    for the generation, the normalised text is empty and the pipeline
    raises the same error, with the marker for empty in place of the
    text. *)
Lemma empty_generation_is_unparseable :
  _extract_text_from_possible_json (Some (or_else None "")) = Ok ""
  /\ fetch_selected_product (stub_client None []) sample_config "sink"
     = ([QuerySelection "sink"],
        Raise (RuntimeError (unparseable_prefix ++ "<empty>"))).
Proof. split; reflexivity. Qed.

Lemma unparseable_selection_fails_witness :
  fetch_selected_product (stub_client (Some (quote "I cannot decide")) [])
    sample_config "sink"
  = ([QuerySelection "sink"],
     Raise (RuntimeError (unparseable_prefix ++ "I cannot decide"))).
Proof.
  apply (@unparseable_selection_fails text_scalars
           (stub_client (Some (quote "I cannot decide")) []) sample_config
           "sink"
           {| found_products := Some "Product ID: 42";
              selected_product := Some (quote "I cannot decide") |}
           [] "I cannot decide");
    reflexivity.
Defined.

Lemma missing_details_is_success_witness :
  fetch_selected_product
    (stub_client (Some (quote "SELECTED_PRODUCT_ID: [42]")) [])
    sample_config "sink"
  = ([QuerySelection "sink"; QueryDetails "42"],
     Ok {| r_search_query := "sink";
           r_found_products := Some "Product ID: 42";
           r_selected_raw := "SELECTED_PRODUCT_ID: [42]";
           r_selected_product_id := "42";
           r_selected_product := None |}).
Proof.
  apply (@missing_details_is_success text_scalars
           (stub_client (Some (quote "SELECTED_PRODUCT_ID: [42]")) [])
           sample_config "sink"
           {| found_products := Some "Product ID: 42";
              selected_product := Some (quote "SELECTED_PRODUCT_ID: [42]") |}
           [] "SELECTED_PRODUCT_ID: [42]" "42");
    reflexivity.
Defined.

(** ** The prompt *)

Lemma append_assoc (a b c : string) : (a ++ b) ++ c = a ++ (b ++ c).
Proof. induction a as [|x a IH]; simpl; [reflexivity|now rewrite IH]. Qed.

Lemma append_nil_r (a : string) : a ++ "" = a.
Proof. induction a as [|x a IH]; simpl; [reflexivity|now rewrite IH]. Qed.

(** Dropping the NULLs commutes with rearranging the rows. *)
Lemma non_null_perm (a b : list (option string)) :
  Permutation a b -> Permutation (non_null a) (non_null b).
Proof.
  induction 1 as [|x a b _ IH|x y a|a b c _ IH1 _ IH2].
  - constructor.
  - destruct x; simpl; [now constructor|exact IH].
  - destruct x, y; simpl; try apply Permutation_refl. apply perm_swap.
  - now apply Permutation_trans with (non_null b).
Qed.

Lemma non_null_some (l : list string) : non_null (map Some l) = l.
Proof. induction l as [|x l IH]; simpl; [reflexivity|now rewrite IH]. Qed.

Lemma non_null_app (a b : list (option string)) :
  non_null (a ++ b)%list = (non_null a ++ non_null b)%list.
Proof.
  induction a as [|x a IH]; simpl; [reflexivity|].
  destruct x; simpl; now rewrite IH.
Qed.

(** The rows are their non-NULL values, in their order, followed by the
    NULLs, up to the order. *)
Lemma nulls_last (values : list (option string)) :
  exists k,
    Permutation (map Some (non_null values) ++ repeat None k)%list values.
Proof.
  induction values as [|x values [k IH]].
  - now exists 0.
  - destruct x as [v|]; simpl.
    + exists k. now constructor.
    + exists (S k). apply Permutation_sym.
      apply Permutation_cons_app. now apply Permutation_sym.
Qed.

Lemma non_null_nulls (k : nat) : non_null (repeat None k) = [].
Proof. induction k as [|k IH]; simpl; [reflexivity|exact IH]. Qed.

(** The results of the aggregate are the arrangements of the non-NULL
    values. *)
Lemma string_agg_arranged values sep result :
  STRING_AGG values sep result
  <-> exists l,
        Permutation l (non_null values)
        /\ result = match l with [] => None | _ => Some (join sep l) end.
Proof.
  split.
  - intros (rows & Hp & ->). exists (non_null rows).
    split; [now apply non_null_perm|].
    unfold aggregate. now destruct (non_null rows).
  - intros (l & Hp & ->). destruct (nulls_last values) as [k Hk].
    exists (map Some l ++ repeat None k)%list. split.
    + apply Permutation_trans
        with (map Some (non_null values) ++ repeat None k)%list;
        [|exact Hk].
      apply Permutation_app_tail. now apply Permutation_map.
    + unfold aggregate.
      rewrite non_null_app, non_null_some, non_null_nulls, app_nil_r.
      now destruct l.
Qed.

Section Prompt.
Context `{Scalars}.

Lemma prompt_block_cases (c : candidate) :
  prompt_block c
  = match product_id c, similarity_score c with
    | Some i, Some x => Some (rendered i x c)
    | _, _ => None
    end.
Proof.
  unfold prompt_block, rendered, SUBSTR_1, IFNULL, CAST.
  destruct (product_id c) as [i|]; [|reflexivity].
  destruct (similarity_score c) as [x|]; [|reflexivity].
  cbn [CONCAT option_map]. rewrite append_nil_r.
  destruct (title c), (brand c), (price c), (description c); reflexivity.
Qed.

Lemma prompt_block_rendered (c : candidate) (i : Id) (x : Score) :
  product_id c = Some i -> similarity_score c = Some x ->
  prompt_block c = Some (rendered i x c).
Proof. intros Hi Hx. now rewrite prompt_block_cases, Hi, Hx. Qed.





End Prompt.



(** * Further properties *)

(** ** The decoder, by the first and the last character *)

Lemma lex_unfold m toks c r :
  Json.lex m toks (String c r)
  = match lex1 m toks c with
    | Some (m', toks') => Json.lex m' toks' r
    | None => None
    end.
Proof.
  destruct m; simpl.
  - destruct (Json.lex_top toks c) as [[m' toks']|]; reflexivity.
  - destruct (Ascii.eqb c dquote); [reflexivity|].
    destruct (Ascii.eqb c "\"); [reflexivity|].
    destruct (nat_of_ascii c <? 32); reflexivity.
  - destruct (Ascii.eqb c "u"); [reflexivity|].
    destruct (Json.escape_char c); reflexivity.
  - destruct (Json.hex_value c); [|reflexivity].
    destruct hex as [|a1 [|a2 [|a3 [|a4 hex']]]]; try reflexivity.
    destruct (_ <? 256); reflexivity.
  - destruct (match st with Json.NMinus => Ascii.eqb c "I" | _ => false end);
      [reflexivity|].
    destruct (Json.lex_num st c) as [[st'|[]]|]; reflexivity.
  - destruct rest as [|d rest']; [reflexivity|].
    destruct (Ascii.eqb c d); [|reflexivity].
    destruct rest'; reflexivity.
Qed.

Lemma lex1_top_kind toks c m' toks' :
  lex1 Json.LTop toks c = Some (m', toks') ->
  Json.is_ws c = false ->
  (toks' = toks /\ kind_of_mode m' = Some (kind_of_char c))
  \/ (exists t, toks' = t :: toks /\ kind_of_token t = kind_of_char c).
Proof.
  unfold lex1, Json.lex_top, kind_of_char. intros E Hws. rewrite Hws in E.
  split_ifs E; inversion E; subst;
    repeat match goal with
           | H : Ascii.eqb _ _ = true |- _ =>
               apply Ascii.eqb_eq in H; subst
           end;
    simpl; eauto.
Qed.

Lemma lex1_mode_kind m k toks c m' toks' :
  kind_of_mode m = Some k ->
  lex1 m toks c = Some (m', toks') ->
  (toks' = toks /\ kind_of_mode m' = Some k)
  \/ (exists t extra, toks' = (extra ++ t :: toks)%list
                      /\ kind_of_token t = k).
Proof.
  destruct m; simpl; intros Hk E; inversion Hk; subst k; clear Hk.
  - split_ifs E; inversion E; subst; simpl; eauto.
    right. now exists (Json.TString acc), [].
  - split_ifs E; try (inversion E; subst; simpl; eauto; fail).
    destruct (Json.escape_char c); inversion E; subst; simpl; eauto.
  - destruct (Json.hex_value c); [|discriminate].
    destruct hex as [|a1 [|a2 [|a3 [|a4 hex']]]];
      try (inversion E; subst; simpl; eauto; fail).
    split_ifs E; inversion E; subst; simpl; eauto.
  - split_ifs E; try (inversion E; subst; simpl; eauto; fail).
    destruct (Json.lex_num st c) as [[st'|[]]|]; try discriminate.
    + inversion E; subst; simpl; eauto.
    + apply lex_top_tokens in E. destruct E as [->|[t ->]]; right.
      * now exists (Json.TNumber acc), [].
      * now exists (Json.TNumber acc), [t].
  - destruct rest as [|d rest']; [discriminate|].
    split_ifs E; inversion E; subst; simpl; eauto.
    right. now exists (Json.TConst k0), [].
Qed.

(** In the middle of a token, that token is the next one produced. *)
Lemma lex_first_kind (s : string) :
  forall m k ts,
    kind_of_mode m = Some k -> Json.lex m [] s = Some ts ->
    exists t ts', ts = t :: ts' /\ kind_of_token t = k.
Proof.
  induction s as [|c r IH]; intros m k ts Hk.
  - destruct m; simpl in *; try discriminate.
    destruct (Json.num_final st); [|discriminate].
    intros E. inversion E. inversion Hk. simpl. eauto.
  - rewrite lex_unfold.
    destruct (lex1 m [] c) as [[m' toks']|] eqn:E1; [|discriminate].
    destruct (lex1_mode_kind _ _ _ Hk E1) as [[-> Hk']|(t & extra & -> & Ht)].
    + now apply IH.
    + intros E. apply lex_prefix in E. destruct E as [ts' ->].
      rewrite rev_app_distr. simpl. eauto.
Qed.

(** A text that does not begin with white space begins with the token its
    first character announces. *)
Lemma lex_head_kind (c : ascii) (r : string) ts :
  Json.is_ws c = false ->
  Json.lex Json.LTop [] (String c r) = Some ts ->
  exists t ts', ts = t :: ts' /\ kind_of_token t = kind_of_char c.
Proof.
  intros Hws. rewrite lex_unfold.
  destruct (lex1 Json.LTop [] c) as [[m' toks']|] eqn:E1; [|discriminate].
  destruct (lex1_top_kind _ _ E1 Hws) as [[-> Hk]|(t & -> & Ht)].
  - intros E. now apply (lex_first_kind r m').
  - intros E. apply (lex_emitted r m' t []) in E. destruct E as [ts' ->].
    eauto.
Qed.

Lemma bottom_obj_mono stk :
  bottom_obj stk false = true -> bottom_obj stk true = true.
Proof. destruct stk as [|[] stk']; simpl; auto. Qed.

Lemma in_object_deliver v stk :
  in_object (Json.deliver v stk) = bottom_obj stk (is_object v).
Proof. destruct stk as [|[] stk']; reflexivity. Qed.

Lemma in_object_step st t st' :
  Json.step st t = Some st' -> in_object st = true -> in_object st' = true.
Proof.
  destruct st; simpl; intros E Hin;
    destruct t; simpl in E; inversion E; subst; clear E;
    rewrite ?in_object_deliver; simpl;
    auto using bottom_obj_mono;
    try (destruct stk as [|[] stk']; simpl in *; auto; discriminate).
Qed.

Lemma read_in_object ts :
  forall st v, Json.read st ts = Some v -> in_object st = true ->
               is_object v = true.
Proof.
  induction ts as [|t ts IH]; intros st v; simpl.
  - destruct st; try discriminate. intros E. now inversion E.
  - destruct (Json.step st t) as [st'|] eqn:Es; [|discriminate].
    intros E Hin. apply (IH st' v E). eapply in_object_step; eauto.
Qed.

Lemma read_done_nil ts v w : Json.read (Json.SDone v) ts = Some w -> ts = [].
Proof. destruct ts; simpl; [reflexivity|discriminate]. Qed.

(** The first token decides what kind of value is read. *)
Lemma read_first_kind t ts j :
  Json.read (Json.SValue []) (t :: ts) = Some j ->
  kind_of_json j = kind_of_token t.
Proof.
  simpl. destruct t; simpl; try discriminate; intros E.
  - apply read_in_object in E; [|reflexivity]. now destruct j.
  - apply read_in_array in E; [|reflexivity]. now destruct j.
  - apply read_done in E. now subst j.
  - apply read_done in E. now subst j.
  - apply read_done in E. subst j. now destruct c.
Qed.

(** The first character of the trimmed text announces the value it decodes
    to: a brace an object, a bracket an array, a double quote a string,
    anything else a number, a boolean or null. *)
Lemma loads_kind (s : string) (j : json) :
  json_loads (strip s) = Ok j ->
  exists c r, strip s = String c r /\ kind_of_char c = kind_of_json j.
Proof.
  unfold json_loads, Json.decode.
  destruct (strip s) as [|c r] eqn:Et; [simpl; discriminate|].
  destruct (Json.lex Json.LTop [] (String c r)) as [ts|] eqn:El;
    [|discriminate].
  destruct (Json.read (Json.SValue []) ts) as [v|] eqn:Er; [|discriminate].
  intros E. inversion E. subst v. exists c, r. split; [reflexivity|].
  assert (Hws : Json.is_ws c = false).
  { apply strip_head in Et. destruct (Json.is_ws c) eqn:Ew; [|reflexivity].
    apply ws_is_space in Ew. congruence. }
  destruct (@lex_head_kind c r ts Hws El) as (t & ts' & -> & Ht).
  apply read_first_kind in Er. congruence.
Qed.

Lemma lex1_last m toks c m' toks' ts :
  lex1 m toks c = Some (m', toks') ->
  Json.is_ws c = false ->
  Json.lex m' toks' "" = Some ts ->
  exists t ts0, ts = (ts0 ++ [t])%list
                /\ (kind_of_token t = KString -> c = dquote).
Proof.
  assert (T : forall toks0 c0 m0 toks1 ts0,
             Json.lex_top toks0 c0 = Some (m0, toks1) ->
             Json.is_ws c0 = false ->
             Json.lex m0 toks1 "" = Some ts0 ->
             exists t ts1, ts0 = (ts1 ++ [t])%list
                           /\ kind_of_token t <> KString).
  { unfold Json.lex_top. intros toks0 c0 m0 toks1 ts0 E Hws El.
    rewrite Hws in E.
    split_ifs E; inversion E; subst; simpl in El; inversion El; subst;
      eexists _, _; (split; [reflexivity|discriminate]). }
  intros E Hws El. destruct m; simpl in E.
  - destruct (T _ _ _ _ _ E Hws El) as (t & ts1 & -> & Ht).
    exists t, ts1. split; [reflexivity|]. intros K. now destruct Ht.
  - split_ifs E; inversion E; subst; simpl in El; inversion El; subst.
    exists (Json.TString acc), (rev toks). split; [reflexivity|].
    intros _. now apply Ascii.eqb_eq.
  - split_ifs E; try (inversion E; subst; discriminate).
    destruct (Json.escape_char c); inversion E; subst; discriminate.
  - destruct (Json.hex_value c); [|discriminate].
    destruct hex as [|a1 [|a2 [|a3 [|a4 hex']]]];
      try (inversion E; subst; discriminate).
    split_ifs E; inversion E; subst; discriminate.
  - split_ifs E; try (inversion E; subst; discriminate).
    destruct (Json.lex_num st c) as [[st'|[]]|]; try discriminate.
    + inversion E; subst. simpl in El.
      destruct (Json.num_final st'); [|discriminate].
      inversion El. simpl. eexists _, _. split; [reflexivity|discriminate].
    + destruct (T _ _ _ _ _ E Hws El) as (t & ts1 & -> & Ht).
      exists t, ts1. split; [reflexivity|]. intros K. now destruct Ht.
  - destruct rest as [|d rest']; [discriminate|].
    split_ifs E; inversion E; subst; simpl in El; inversion El; subst.
    eexists _, _. split; [reflexivity|discriminate].
Qed.

(** The last token of a text that does not end with white space ends with
    the last character; when it is a string, that character is the
    closing quote. *)
Lemma lex_last_kind (s : string) :
  forall m toks c ts,
    Json.lex m toks (s ++ String c "") = Some ts ->
    Json.is_ws c = false ->
    exists t ts0, ts = (ts0 ++ [t])%list
                  /\ (kind_of_token t = KString -> c = dquote).
Proof.
  induction s as [|a s IH]; intros m toks c ts; simpl append;
    rewrite lex_unfold.
  - destruct (lex1 m toks c) as [[m' toks']|] eqn:E1; [|discriminate].
    intros El Hws. exact (lex1_last _ _ _ E1 Hws El).
  - destruct (lex1 m toks a) as [[m' toks']|]; [|discriminate].
    apply IH.
Qed.

Lemma last_char_snoc (s : string) (c : ascii) :
  last_char s = Some c -> exists s0, s = s0 ++ String c "".
Proof.
  induction s as [|a s IH]; [discriminate|].
  destruct s as [|b s'].
  - simpl. intros E. inversion E. now exists "".
  - intros E. change (last_char (String b s') = Some c) in E.
    destruct (IH E) as [s0 ->]. now exists (String a s0).
Qed.

Lemma last_char_cons (a : ascii) (s : string) (c : ascii) :
  last_char s = Some c -> last_char (String a s) = Some c.
Proof. destruct s; [discriminate|]. exact (fun E => E). Qed.

Lemma last_char_none (s : string) : last_char s = None -> s = "".
Proof.
  induction s as [|a s IH]; [reflexivity|].
  destruct s as [|b s']; [discriminate|].
  intros E. change (last_char (String b s') = None) in E.
  apply IH in E. discriminate.
Qed.

Lemma rstrip_last (s : string) (c : ascii) :
  last_char (rstrip s) = Some c -> is_space c = false.
Proof.
  induction s as [|a s IH]; [discriminate|].
  simpl rstrip. destruct (rstrip s) as [|b r] eqn:Er.
  - destruct (is_space a) eqn:Ea; [discriminate|].
    simpl. intros E. inversion E. now subst.
  - intros E. apply IH. exact E.
Qed.

Lemma strip_last (s : string) (c : ascii) :
  last_char (strip s) = Some c -> is_space c = false.
Proof. apply rstrip_last. Qed.

(** A text that decodes to a string is, once trimmed, wrapped in double
    quotes. *)
Lemma loads_string_quoted (s v : string) :
  json_loads (strip s) = Ok (JString v) ->
  startswith (strip s) dq = true /\ endswith (strip s) dquote = true.
Proof.
  intros E. destruct (loads_kind s E) as (c & r & Et & Hk).
  assert (Hc : c = dquote).
  { revert Hk. unfold kind_of_char. simpl.
    destruct (Ascii.eqb c "{"); [discriminate|].
    destruct (Ascii.eqb c "["); [discriminate|].
    destruct (Ascii.eqb c dquote) eqn:Ec; [now apply Ascii.eqb_eq in Ec|].
    destruct (_ || _); discriminate. }
  subst c. split; [now rewrite Et|].
  revert E. unfold json_loads, Json.decode.
  destruct (Json.lex Json.LTop [] (strip s)) as [ts|] eqn:El; [|discriminate].
  destruct (Json.read (Json.SValue []) ts) as [j|] eqn:Er; [|discriminate].
  intros E. inversion E. subst j.
  destruct ts as [|t ts']; [discriminate|].
  pose proof (read_first_kind _ _ Er) as Hkt. simpl in Er.
  destruct t as [| | | | | |sv|lit|k]; try discriminate. simpl in Er.
  apply read_done_nil in Er. subst ts'.
  unfold endswith. destruct (last_char (strip s)) as [d|] eqn:Ed.
  - pose proof (strip_last s Ed) as Hd.
    destruct (last_char_snoc _ Ed) as [pre Es]. rewrite Es in El.
    destruct (lex_last_kind pre _ _ _ El) as (t & ts0 & Ets & Hq).
    + destruct (Json.is_ws d) eqn:Ew; [|reflexivity].
      apply ws_is_space in Ew. congruence.
    + change [Json.TString sv] with ([] ++ [Json.TString sv])%list in Ets.
      apply app_inj_tail in Ets. destruct Ets as [_ <-].
      rewrite (Hq eq_refl). apply Ascii.eqb_refl.
  - apply last_char_none in Ed. congruence.
Qed.

(** ** The normaliser, shape by shape *)

Lemma kind_of_char_bracket (c : ascii) :
  kind_of_char c = KBracket -> c = "["%char.
Proof.
  unfold kind_of_char. destruct (Ascii.eqb c "{"); [discriminate|].
  destruct (Ascii.eqb c "[") eqn:Ec; [now apply Ascii.eqb_eq in Ec|].
  destruct (Ascii.eqb c dquote); [discriminate|].
  destruct (_ || _); discriminate.
Qed.

Lemma kind_of_char_scalar (c : ascii) :
  kind_of_char c = KScalar ->
  Ascii.eqb c "{" = false /\ Ascii.eqb c "[" = false
  /\ Ascii.eqb c dquote = false.
Proof.
  unfold kind_of_char. destruct (Ascii.eqb c "{"); [discriminate|].
  destruct (Ascii.eqb c "["); [discriminate|].
  destruct (Ascii.eqb c dquote); [discriminate|]. auto.
Qed.

(** X1: every text that, once trimmed, decodes to a JSON string is
    replaced by the decoded string. *)
Theorem normalize_json_string (s v : string) :
  json_loads (strip s) = Ok (JString v) ->
  _extract_text_from_possible_json (Some s) = Ok v.
Proof.
  intros E. destruct (loads_string_quoted s E) as [Hs He].
  unfold _extract_text_from_possible_json, quoted, try_quoted.
  now rewrite Hs, He, E.
Qed.

Lemma normalize_json_string_witness :
  _extract_text_from_possible_json
    (Some ("  " ++ quote "line\nnext A" ++ nl))
  = Ok ("line" ++ nl ++ "next A").
Proof.
  apply (@normalize_json_string
           ("  " ++ quote "line\nnext A" ++ nl)
           ("line" ++ nl ++ "next A")).
  reflexivity.
Defined.

(** X2: a text that decodes to a JSON number, boolean or null is not
    replaced by anything: the argument is returned as it is. *)
Theorem normalize_json_scalar (s : string) (j : json) :
  json_loads (strip s) = Ok j ->
  j = JNull \/ (exists b, j = JBool b) \/ (exists lit, j = JNumber lit) ->
  _extract_text_from_possible_json (Some s) = Ok s.
Proof.
  intros E Hj. destruct (loads_kind s E) as (c & r & Et & Hk).
  assert (Hs : kind_of_json j = KScalar).
  { destruct Hj as [->|[[b ->]|[lit ->]]]; reflexivity. }
  rewrite Hs in Hk. apply kind_of_char_scalar in Hk.
  destruct Hk as (Hb & Hk & _).
  unfold _extract_text_from_possible_json, try_quoted. rewrite E.
  replace (startswith (strip s) "{") with false
    by (rewrite Et; simpl; now rewrite Hb).
  replace (startswith (strip s) "[") with false
    by (rewrite Et; simpl; now rewrite Hk).
  destruct (quoted (strip s));
    destruct Hj as [->|[[b ->]|[lit ->]]]; reflexivity.
Qed.

Lemma normalize_json_scalar_witness :
  _extract_text_from_possible_json (Some " -12.5e3 ") = Ok " -12.5e3 "
  /\ _extract_text_from_possible_json (Some "null") = Ok "null".
Proof.
  split.
  - apply (@normalize_json_scalar " -12.5e3 " (JNumber "-12.5e3")).
    + reflexivity.
    + right. right. now exists "-12.5e3".
  - apply (@normalize_json_scalar "null" JNull); [reflexivity|now left].
Defined.

Lemma extract_array (s : string) items :
  json_loads (strip s) = Ok (JArray items) ->
  _extract_text_from_possible_json (Some s)
  = match catch_pass (try_structured (strip s)) with
    | Some v => Ok v
    | None => Ok s
    end.
Proof.
  intros E. destruct (loads_kind s E) as (c & r & Et & Hk).
  apply kind_of_char_bracket in Hk. subst c.
  assert (H2 : startswith (strip s) "[" = true) by now rewrite Et.
  unfold _extract_text_from_possible_json, try_quoted.
  rewrite E, H2, orb_true_r. simpl.
  destruct (quoted (strip s)); reflexivity.
Qed.

Lemma first_str_none members keys :
  Forall (fun k => get_str members k = None) keys ->
  first_str members keys = None.
Proof.
  induction 1 as [|k keys Hk _ IH]; simpl; [reflexivity|].
  now rewrite Hk.
Qed.

Lemma candidate_texts_collected (cand : json) :
  candidate_texts cand = collected cand.
Proof.
  destruct cand as [| | | | |c]; try reflexivity.
  unfold candidate_texts, collected, content_texts, all_strs, found.
  cbn [flat_map]. rewrite !app_nil_r, <- app_assoc. do 2 f_equal.
  destruct (dict_get c "content") as [[| | | | |content]|]; try reflexivity.
  destruct (dict_get content "parts") as [[| | | |parts|]|];
    try reflexivity.
  f_equal. apply flat_map_ext. intros part.
  destruct part as [| | | | |pm]; try reflexivity.
  unfold part_texts, all_strs. cbn [flat_map]. now rewrite app_nil_r.
Qed.

(** C1: the table of shapes.  A text that, once trimmed, is neither
    wrapped in quotes nor opened by a brace or a bracket maps to itself;
    the rows of the table map as the table says; a text whose decoding
    fails maps to itself; a text that decodes to a string maps to that
    string; for every text that decodes to an object, the keys
    ml_generate_text_result, text, content, output_text, result are tried
    in this order and the first one bound to a string gives the result;
    when none is, and candidates is a list, the texts collected from its
    elements are joined by a line feed, and the argument is returned when
    there is none; for every text that decodes to an array, a string as
    first element is the result, and an object as first element is
    searched under content, text, output_text, ml_generate_text_result in
    this order. *)
Theorem normalize_shapes :
  (forall s,
     quoted (strip s) = false ->
     startswith (strip s) "{" || startswith (strip s) "[" = false ->
     _extract_text_from_possible_json (Some s) = Ok s)
  /\ _extract_text_from_possible_json (Some "SELECTED_PRODUCT_ID: 42")
     = Ok "SELECTED_PRODUCT_ID: 42"
  /\ _extract_text_from_possible_json (Some (quote "hello")) = Ok "hello"
  /\ _extract_text_from_possible_json (Some text_object) = Ok "hello"
  /\ _extract_text_from_possible_json (Some candidates_object) = Ok "hello"
  /\ _extract_text_from_possible_json (Some "{bad") = Ok "{bad"
  /\ (forall s e,
        narrow_escapes (strip s) = true ->
        json_loads (strip s) = Raise e ->
        _extract_text_from_possible_json (Some s) = Ok s)
  /\ (forall s v,
        json_loads (strip s) = Ok (JString v) ->
        _extract_text_from_possible_json (Some s) = Ok v)
  /\ (forall s members before key after v,
        json_loads (strip s) = Ok (JObject members) ->
        ["ml_generate_text_result"; "text"; "content"; "output_text";
         "result"]
        = (before ++ key :: after)%list ->
        Forall (fun k => get_str members k = None) before ->
        get_str members key = Some v ->
        _extract_text_from_possible_json (Some s) = Ok v)
  /\ (forall s members cands,
        json_loads (strip s) = Ok (JObject members) ->
        Forall (fun k => get_str members k = None)
               ["ml_generate_text_result"; "text"; "content";
                "output_text"; "result"] ->
        dict_get members "candidates" = Some (JArray cands) ->
        _extract_text_from_possible_json (Some s)
        = Ok match flat_map collected cands with
             | [] => s
             | texts => join nl texts
             end)
  /\ _extract_text_from_possible_json (Some full_candidate)
     = Ok ("a" ++ nl ++ "b" ++ nl ++ "c" ++ nl ++ "d" ++ nl ++ "e")
  /\ (forall s v rest,
        json_loads (strip s) = Ok (JArray (JString v :: rest)) ->
        _extract_text_from_possible_json (Some s) = Ok v)
  /\ (forall s members rest before key after v,
        json_loads (strip s) = Ok (JArray (JObject members :: rest)) ->
        ["content"; "text"; "output_text"; "ml_generate_text_result"]
        = (before ++ key :: after)%list ->
        Forall (fun k => get_str members k = None) before ->
        get_str members key = Some v ->
        _extract_text_from_possible_json (Some s) = Ok v).
Proof.
  split.
  { intros s Hq Hb. unfold _extract_text_from_possible_json.
    now rewrite Hq, Hb. }
  do 5 (split; [reflexivity|]).
  split; [intros s e _; apply extract_loads_raise|].
  split.
  { intros s v E. destruct (loads_string_quoted s E) as [Hs He].
    unfold _extract_text_from_possible_json, quoted, try_quoted.
    now rewrite Hs, He, E. }
  split.
  { intros s members before key after v E Hk Hb Hv.
    rewrite (extract_object s E). unfold try_structured. rewrite E.
    cbn [bind].
    change ["ml_generate_text_result"; "text"; "content"; "output_text";
            "result"] with object_keys in Hk.
    now erewrite first_str_split by eassumption. }
  split.
  { intros s members cands E Hk Hc.
    rewrite (extract_object s E). unfold try_structured. rewrite E.
    cbn [bind].
    change ["ml_generate_text_result"; "text"; "content"; "output_text";
            "result"] with object_keys in Hk.
    rewrite (@first_str_none _ _ Hk), Hc.
    destruct cands as [|cand cands']; [reflexivity|].
    rewrite (flat_map_ext _ _ candidate_texts_collected).
    destruct (flat_map collected (cand :: cands')); reflexivity. }
  split; [reflexivity|].
  split.
  { intros s v rest E. rewrite (extract_array s E).
    unfold try_structured. now rewrite E. }
  intros s members rest before key after v E Hk Hb Hv.
  rewrite (extract_array s E). unfold try_structured. rewrite E.
  cbn [bind index nth_error catch_pass].
  change ["content"; "text"; "output_text"; "ml_generate_text_result"]
    with first_item_keys in Hk.
  now erewrite first_str_split by eassumption.
Qed.

Lemma normalize_shapes_witness :
  _extract_text_from_possible_json (Some " plain ") = Ok " plain "
  /\ _extract_text_from_possible_json (Some "{bad") = Ok "{bad"
  /\ _extract_text_from_possible_json (Some keyed_object) = Ok "c"
  /\ _extract_text_from_possible_json (Some two_candidates)
     = Ok ("a" ++ nl ++ "b")
  /\ _extract_text_from_possible_json (Some array_of_objects) = Ok "first".
Proof.
  destruct normalize_shapes
    as (Hplain & _ & _ & _ & _ & _ & Hraise & _ & Hkeys & Hcands & _ & _
        & Hitem).
  split; [|split; [|split; [|split]]].
  - apply (Hplain " plain "); reflexivity.
  - apply (Hraise "{bad" JSONDecodeError); reflexivity.
  - apply (Hkeys keyed_object
             [("result", JString "r"); ("text", JNumber "5");
              ("content", JString "c")]
             ["ml_generate_text_result"; "text"] "content"
             ["output_text"; "result"] "c").
    + reflexivity.
    + reflexivity.
    + repeat constructor.
    + reflexivity.
  - apply (Hcands two_candidates
             [("candidates",
               JArray
                 [JObject
                    [("content",
                      JObject
                        [("parts",
                          JArray [JObject [("text", JString "b")]])]);
                     ("text", JString "a")];
                  JNumber "7"])]
             [JObject
                [("content",
                  JObject
                    [("parts", JArray [JObject [("text", JString "b")]])]);
                 ("text", JString "a")];
              JNumber "7"]).
    + reflexivity.
    + repeat constructor.
    + reflexivity.
  - apply (Hitem array_of_objects
             [("text", JString "first"); ("content", JNumber "1")]
             [JString "second"] ["content"] "text"
             ["output_text"; "ml_generate_text_result"] "first").
    + reflexivity.
    + reflexivity.
    + repeat constructor.
    + reflexivity.
Defined.

(** X3: for every text that decodes to a JSON array, only the first
    element counts.  A string there is the result; an object there is
    searched for a string under content, text, output_text,
    ml_generate_text_result, in this order; and an empty array, or a first
    element that gives nothing, leaves the argument as it is. *)
Theorem normalize_json_array (s : string) :
  (forall v rest,
     json_loads (strip s) = Ok (JArray (JString v :: rest)) ->
     _extract_text_from_possible_json (Some s) = Ok v)
  /\ (forall members rest before key after v,
        json_loads (strip s) = Ok (JArray (JObject members :: rest)) ->
        ["content"; "text"; "output_text"; "ml_generate_text_result"]
        = (before ++ key :: after)%list ->
        Forall (fun k => get_str members k = None) before ->
        get_str members key = Some v ->
        _extract_text_from_possible_json (Some s) = Ok v)
  /\ (forall first rest,
        json_loads (strip s) = Ok (JArray (first :: rest)) ->
        (forall v, first <> JString v) ->
        (forall members,
           first = JObject members ->
           Forall (fun k => get_str members k = None)
                  ["content"; "text"; "output_text";
                   "ml_generate_text_result"]) ->
        _extract_text_from_possible_json (Some s) = Ok s)
  /\ (json_loads (strip s) = Ok (JArray []) ->
      _extract_text_from_possible_json (Some s) = Ok s).
Proof.
  repeat split.
  - intros v rest E. rewrite (extract_array s E).
    unfold try_structured. now rewrite E.
  - intros members rest before key after v E Hk Hb Hv.
    rewrite (extract_array s E). unfold try_structured. rewrite E.
    cbn [bind index nth_error catch_pass].
    change ["content"; "text"; "output_text"; "ml_generate_text_result"]
      with first_item_keys in Hk.
    now erewrite first_str_split by eassumption.
  - intros first rest E Hstr Hobj.
    rewrite (extract_array s E). unfold try_structured. rewrite E.
    cbn [bind index nth_error].
    destruct first as [| | |v| |members]; try reflexivity.
    + now destruct (Hstr v).
    + specialize (Hobj members eq_refl).
      inversion Hobj as [|? ? H1 Hobj1]; subst.
      inversion Hobj1 as [|? ? H2 Hobj2]; subst.
      inversion Hobj2 as [|? ? H3 Hobj3]; subst.
      inversion Hobj3 as [|? ? H4 _]; subst.
      cbn [first_item_keys first_str]. now rewrite H1, H2, H3, H4.
  - intros E. rewrite (extract_array s E). unfold try_structured.
    now rewrite E.
Qed.

Lemma normalize_json_array_witness :
  _extract_text_from_possible_json (Some array_of_objects) = Ok "first"
  /\ _extract_text_from_possible_json (Some " [] ") = Ok " [] "
  /\ _extract_text_from_possible_json (Some "[1, 2]") = Ok "[1, 2]".
Proof.
  split; [|split].
  - destruct (normalize_json_array array_of_objects) as (_ & H & _).
    apply (H [("text", JString "first"); ("content", JNumber "1")]
             [JString "second"] ["content"] "text"
             ["output_text"; "ml_generate_text_result"] "first");
      try reflexivity.
    repeat constructor.
  - destruct (normalize_json_array " [] ") as (_ & _ & _ & H).
    apply H. reflexivity.
  - destruct (normalize_json_array "[1, 2]") as (_ & _ & H & _).
    apply (H (JNumber "1") [JNumber "2"]);
      [reflexivity|discriminate|discriminate].
Defined.

(** X4: for every text that decodes to an object without a string under
    the five top-level keys and with a non-empty candidates list, the
    result is the texts found in the candidates, in the order of the
    candidates, joined by a line feed; candidates that are not objects are
    skipped, and when no text is found the argument is returned as it
    is. *)
Theorem normalize_candidates (s : string) members cands :
  json_loads (strip s) = Ok (JObject members) ->
  first_str members object_keys = None ->
  dict_get members "candidates" = Some (JArray cands) ->
  _extract_text_from_possible_json (Some s)
  = Ok (match flat_map candidate_texts
                (filter is_object cands) with
        | [] => s
        | texts => join nl texts
        end).
Proof.
  intros E Hk Hc. rewrite (extract_object s E).
  unfold try_structured. rewrite E. cbn [bind]. rewrite Hk, Hc.
  assert (Hf : flat_map candidate_texts (filter is_object cands)
               = flat_map candidate_texts cands).
  { clear. induction cands as [|cand cands IH]; [reflexivity|].
    destruct cand; simpl; try exact IH. now rewrite IH. }
  rewrite Hf. destruct cands as [|cand cands']; [reflexivity|].
  destruct (flat_map candidate_texts (cand :: cands')); reflexivity.
Qed.

Lemma normalize_candidates_witness :
  _extract_text_from_possible_json (Some two_candidates)
  = Ok ("a" ++ nl ++ "b").
Proof.
  apply (@normalize_candidates two_candidates
           [("candidates",
             JArray
               [JObject
                  [("content",
                    JObject
                      [("parts", JArray [JObject [("text", JString "b")]])]);
                   ("text", JString "a")];
                JNumber "7"])]
           [JObject
              [("content",
                JObject
                  [("parts", JArray [JObject [("text", JString "b")]])]);
               ("text", JString "a")];
            JNumber "7"]);
    reflexivity.
Defined.

(** ** More about [strip] and [splitlines] *)

Lemma rstrip_cons (a : ascii) (s : string) :
  rstrip (String a s)
  = match rstrip s with
    | "" => if is_space a then "" else String a ""
    | r' => String a r'
    end.
Proof. reflexivity. Qed.

Lemma rstrip_idem (s : string) : rstrip (rstrip s) = rstrip s.
Proof.
  induction s as [|a s IH]; [reflexivity|].
  rewrite rstrip_cons. destruct (rstrip s) as [|b r] eqn:Er.
  - destruct (is_space a) eqn:Ea; [reflexivity|].
    rewrite rstrip_cons. simpl. now rewrite Ea.
  - rewrite rstrip_cons. now rewrite IH.
Qed.

Lemma lstrip_rstrip (s : string) : lstrip (rstrip s) = rstrip (lstrip s).
Proof.
  induction s as [|a s IH]; [reflexivity|].
  rewrite rstrip_cons. simpl lstrip at 2. destruct (is_space a) eqn:Ea.
  - rewrite <- IH. destruct (rstrip s) as [|b r]; [reflexivity|].
    simpl. now rewrite Ea.
  - rewrite rstrip_cons.
    destruct (rstrip s) as [|b r]; simpl; now rewrite Ea.
Qed.

Lemma strip_idem (s : string) : strip (strip s) = strip s.
Proof.
  unfold strip. rewrite lstrip_rstrip, rstrip_idem. f_equal. clear.
  induction s as [|a s IH]; [reflexivity|].
  simpl. destruct (is_space a) eqn:Ea; [exact IH|]. simpl. now rewrite Ea.
Qed.

Section AllChars.
Variable p : ascii -> bool.

Lemma all_chars_app (a b : string) :
  all_chars p (a ++ b) = all_chars p a && all_chars p b.
Proof.
  induction a as [|c a IH]; simpl; [reflexivity|].
  now rewrite IH, andb_assoc.
Qed.

Lemma all_chars_lstrip (s : string) :
  all_chars p s = true -> all_chars p (lstrip s) = true.
Proof.
  induction s as [|c s IH]; [reflexivity|]. simpl.
  intros E. apply andb_true_iff in E. destruct E as [Ec Es].
  destruct (is_space c); [auto|]. simpl. now rewrite Ec, Es.
Qed.

Lemma all_chars_rstrip (s : string) :
  all_chars p s = true -> all_chars p (rstrip s) = true.
Proof.
  induction s as [|c s IH]; [reflexivity|]. rewrite rstrip_cons.
  simpl. intros E. apply andb_true_iff in E. destruct E as [Ec Es].
  specialize (IH Es). destruct (rstrip s) as [|b r].
  - destruct (is_space c); [reflexivity|]. simpl. now rewrite Ec.
  - change (p c && all_chars p (String b r) = true). now rewrite Ec, IH.
Qed.

Lemma all_chars_strip (s : string) :
  all_chars p s = true -> all_chars p (strip s) = true.
Proof. intros E. now apply all_chars_rstrip, all_chars_lstrip. Qed.

Lemma all_chars_drop_last (s : string) :
  all_chars p s = true -> all_chars p (drop_last s) = true.
Proof.
  induction s as [|c s IH]; [reflexivity|].
  destruct s as [|b s']; [reflexivity|].
  intros E. change (p c && all_chars p (String b s') = true) in E.
  apply andb_true_iff in E. destruct E as [Ec Es].
  change (p c && all_chars p (drop_last (String b s')) = true).
  now rewrite Ec, (IH Es).
Qed.

Lemma all_chars_slice (s : string) :
  all_chars p s = true -> all_chars p (slice_1_m1 s) = true.
Proof.
  destruct s as [|c s]; [reflexivity|]. simpl. intros E.
  apply andb_true_iff in E. now apply all_chars_drop_last.
Qed.

Lemma all_chars_split1 (sep : ascii) (s : string) :
  all_chars p s = true ->
  Forall (fun x => all_chars p x = true) (split1 sep s).
Proof.
  induction s as [|c s IH]; simpl; [repeat constructor|].
  intros E. apply andb_true_iff in E. destruct E as [Ec Es].
  destruct (Ascii.eqb c sep);
    [constructor; [reflexivity|constructor; [exact Es|constructor]]|].
  specialize (IH Es). destruct (split1 sep s) as [|h t]; [constructor|].
  inversion IH; subst. constructor; [|assumption]. simpl.
  now rewrite Ec.
Qed.

Lemma all_chars_normalize (value : string) :
  all_chars p value = true -> all_chars p (normalize_value value) = true.
Proof.
  intros E. unfold normalize_value.
  assert (Hb : all_chars p (unwrap_brackets value) = true).
  { unfold unwrap_brackets. destruct (_ || _); [|exact E].
    now apply all_chars_strip, all_chars_slice. }
  assert (Hq : all_chars p (unwrap_quotes (unwrap_brackets value)) = true).
  { unfold unwrap_quotes. destruct (quoted _); [|exact Hb].
    now apply all_chars_strip, all_chars_slice. }
  unfold drop_comma. destruct (endswith _ ","); [|exact Hq].
  now apply all_chars_strip, all_chars_drop_last.
Qed.

End AllChars.

Lemma splitlines_from_one_line (n : nat) :
  forall s cur,
    String.length s <= n ->
    one_line cur = true ->
    Forall (fun l => one_line l = true) (splitlines_from cur s).
Proof.
  induction n as [|n IH]; intros s cur Hn Hc.
  - destruct s; [|simpl in Hn; inversion Hn].
    simpl. destruct cur; repeat constructor. exact Hc.
  - destruct s as [|c s]; simpl.
    { destruct cur; repeat constructor. exact Hc. }
    simpl in Hn. apply le_S_n in Hn.
    destruct (is_linebreak c) eqn:Eb.
    + destruct s as [|d s'].
      * constructor; [exact Hc|]. now apply IH.
      * destruct (Ascii.eqb c "013" && Ascii.eqb d "010");
          (constructor; [exact Hc|]); apply IH; try reflexivity;
          [simpl in Hn; apply Nat.le_trans with (S (String.length s'));
           [apply Nat.le_succ_diag_r|exact Hn]|exact Hn].
    + apply IH; [exact Hn|]. unfold one_line. rewrite all_chars_app.
      simpl. unfold one_line in Hc. rewrite Hc. unfold not_linebreak.
      now rewrite Eb.
Qed.

Lemma splitlines_one_line (s : string) :
  Forall (fun l => one_line l = true) (splitlines s).
Proof.
  apply (@splitlines_from_one_line (String.length s) s "");
    [apply le_n|reflexivity].
Qed.

(** ** The parser's result *)

Lemma normalize_value_stripped (value : string) :
  strip value = value -> strip (normalize_value value) = normalize_value value.
Proof.
  intros E. unfold normalize_value.
  assert (Hb : strip (unwrap_brackets value) = unwrap_brackets value).
  { unfold unwrap_brackets. destruct (_ || _); [apply strip_idem|exact E]. }
  assert (Hq : strip (unwrap_quotes (unwrap_brackets value))
               = unwrap_quotes (unwrap_brackets value)).
  { unfold unwrap_quotes. destruct (quoted _); [apply strip_idem|exact Hb]. }
  unfold drop_comma. destruct (endswith _ ","); [apply strip_idem|exact Hq].
Qed.

Lemma selection_value_clean (stripped id : string) :
  one_line stripped = true ->
  selection_value stripped = Ok (Some id) ->
  id <> "" /\ strip id = id /\ one_line id = true.
Proof.
  unfold selection_value, index. intros Hl.
  pose proof (all_chars_split1 not_linebreak ":" stripped Hl) as Hparts.
  destruct (nth_error (split1 ":" stripped) 1) as [after|] eqn:En;
    [|discriminate].
  apply nth_error_In in En. rewrite Forall_forall in Hparts.
  specialize (Hparts after En). cbn [bind].
  destruct (normalize_value (strip after)) as [|a r] eqn:Ev;
    [discriminate|].
  intros E. inversion E. subst id. rewrite <- Ev.
  repeat split.
  - rewrite Ev. discriminate.
  - apply normalize_value_stripped, strip_idem.
  - now apply all_chars_normalize, all_chars_strip.
Qed.

Lemma scan_lines_clean (lines : list string) (id : string) :
  Forall (fun l => one_line l = true) lines ->
  scan_lines lines = Ok (Some id) ->
  id <> "" /\ strip id = id /\ one_line id = true.
Proof.
  induction lines as [|line rest IH]; simpl; [discriminate|].
  intros Hl. inversion Hl as [|? ? H1 Hrest]; subst.
  destruct line as [|c l]; [now apply IH|].
  destruct (is_selection (strip (String c l))); [|now apply IH].
  apply selection_value_clean. now apply all_chars_strip.
Qed.

(** X5: an identifier the parser returns is never empty, has no white
    space at either end, and lies on one line of the text. *)
Theorem parsed_identifier_clean (text id : string) :
  parse_selected_product_id (Some text) = Ok (Some id) ->
  id <> "" /\ strip id = id /\ one_line id = true.
Proof.
  rewrite parse_scan. apply scan_lines_clean, splitlines_one_line.
Qed.

Lemma parsed_identifier_clean_witness :
  "A-1" <> "" /\ strip "A-1" = "A-1" /\ one_line "A-1" = true.
Proof.
  apply (@parsed_identifier_clean two_answers "A-1"). reflexivity.
Defined.

Lemma lstrip_fixed (s : string) :
  (forall c r, s = String c r -> is_space c = false) -> lstrip s = s.
Proof.
  destruct s as [|c r]; [reflexivity|]. intros H. simpl.
  now rewrite (H c r eq_refl).
Qed.

Lemma lower_app (a b : string) : lower (a ++ b) = lower a ++ lower b.
Proof. induction a as [|c a IH]; simpl; [reflexivity|now rewrite IH]. Qed.

Lemma startswith_app (p x : string) : startswith (p ++ x) p = true.
Proof.
  induction p as [|c p IH]; simpl; [reflexivity|].
  now rewrite Ascii.eqb_refl, IH.
Qed.

(** Lowering changes neither white space, nor a line boundary, nor a
    colon, and produces none of them. *)
Lemma lower_char_keeps (c : ascii) :
  is_space (lower_char c) = is_space c
  /\ is_linebreak (lower_char c) = is_linebreak c
  /\ Ascii.eqb (lower_char c) ":" = Ascii.eqb c ":".
Proof.
  destruct c as [[] [] [] [] [] [] [] []]; vm_compute; auto.
Qed.

Lemma lower_all_chars (p : ascii -> bool) (s : string) :
  (forall c, p (lower_char c) = p c) ->
  all_chars p (lower s) = all_chars p s.
Proof.
  intros H. induction s as [|c s IH]; simpl; [reflexivity|].
  now rewrite H, IH.
Qed.

Lemma lower_has_colon (s : string) : has_char ":" (lower s) = has_char ":" s.
Proof.
  induction s as [|c s IH]; simpl; [reflexivity|].
  destruct (lower_char_keeps c) as (_ & _ & ->). now rewrite IH.
Qed.

Lemma lower_snoc_colon (k p : string) :
  lower k = p ++ ":" -> has_char ":" p = false ->
  exists k', k = k' ++ ":" /\ has_char ":" k' = false.
Proof.
  revert k. induction p as [|b p IH]; intros k E Hp.
  - destruct k as [|a [|a' k']]; try discriminate.
    simpl in E. inversion E as [Ea]. apply lower_char_colon in Ea.
    subst a. now exists "".
  - destruct k as [|a k1]; [discriminate|].
    simpl in E. inversion E as [[Ea Ek]]. simpl in Hp.
    apply orb_false_iff in Hp. destruct Hp as [Hb Hp].
    destruct (IH k1 Ek Hp) as (k' & -> & Hk').
    exists (String a k'). split; [reflexivity|]. simpl.
    destruct (lower_char_keeps a) as (_ & _ & Hc).
    rewrite <- Hc, Ea, Hb. exact Hk'.
Qed.

Lemma rstrip_app (a b : string) :
  rstrip (a ++ b)
  = match rstrip b with
    | "" => rstrip a
    | r => a ++ r
    end.
Proof.
  induction a as [|c a IH]; simpl append.
  - now destruct (rstrip b).
  - rewrite rstrip_cons, IH. destruct (rstrip b) as [|d r].
    + now rewrite rstrip_cons.
    + now destruct a.
Qed.

Lemma splitlines_from_single (s : string) :
  forall cur,
    one_line s = true -> cur ++ s <> "" ->
    splitlines_from cur s = [cur ++ s].
Proof.
  induction s as [|c s IH]; intros cur Hl Hne; simpl.
  - rewrite append_nil_r in *. now destruct cur.
  - unfold one_line in Hl. simpl in Hl. apply andb_true_iff in Hl.
    destruct Hl as [Hc Hs]. unfold not_linebreak in Hc.
    apply negb_true_iff in Hc. rewrite Hc.
    rewrite IH; [now rewrite append_assoc|exact Hs|].
    rewrite append_assoc. simpl. now destruct cur.
Qed.

(** X6: the key may be written in any mix of upper and lower case.  For a
    one-line text made of the key, in any case, followed by a value, the
    result is the normalised value, in its own case, or nothing when it
    is empty. *)
Theorem parse_key_any_case (k v : string) :
  lower k = selection_key ->
  one_line v = true ->
  parse_selected_product_id (Some (k ++ v))
  = Ok (let value := normalize_value (strip v) in
        if String.eqb value "" then None else Some value).
Proof.
  intros Hk Hv.
  destruct (lower_snoc_colon k "selected_product_id" Hk eq_refl)
    as (k' & -> & Hk').
  assert (Hls : all_chars not_space (k' ++ ":") = true).
  { rewrite <- (lower_all_chars not_space).
    - now rewrite Hk.
    - intros c. unfold not_space.
      now destruct (lower_char_keeps c) as (-> & _). }
  assert (Hlb : one_line (k' ++ ":") = true).
  { unfold one_line. rewrite <- (lower_all_chars not_linebreak).
    - now rewrite Hk.
    - intros c. unfold not_linebreak.
      now destruct (lower_char_keeps c) as (_ & -> & _). }
  assert (Hstrip : strip ((k' ++ ":") ++ v) = (k' ++ ":") ++ rstrip v).
  { unfold strip. rewrite lstrip_fixed.
    - rewrite rstrip_app. destruct (rstrip v) as [|d r] eqn:Er.
      + rewrite rstrip_app. simpl. now rewrite append_nil_r.
      + reflexivity.
    - intros c r E. destruct k' as [|a k1]; simpl in E, Hls;
        inversion E; subst; [reflexivity|].
      apply andb_true_iff in Hls. destruct Hls as [Ha _].
      unfold not_space in Ha. now apply negb_true_iff in Ha. }
  rewrite parse_scan. unfold splitlines.
  rewrite splitlines_from_single.
  - simpl append. rewrite scan_lines_hit.
    + rewrite Hstrip. unfold selection_value.
      rewrite append_assoc. simpl append.
      rewrite split1_app by exact Hk'. cbn [index nth_error bind].
      replace (strip (rstrip v)) with (strip v)
        by (unfold strip; now rewrite lstrip_rstrip, rstrip_idem).
      now destruct (normalize_value (strip v)).
    + rewrite Hstrip. unfold is_selection. rewrite lower_app, Hk.
      apply startswith_app.
  - unfold one_line in *. rewrite all_chars_app. now rewrite Hlb, Hv.
  - simpl. destruct k'; discriminate.
Qed.

Lemma parse_key_any_case_witness :
  parse_selected_product_id (Some ("Selected_PRODUCT_id:" ++ "  [Ab-7] "))
  = Ok (Some "Ab-7").
Proof.
  apply (@parse_key_any_case "Selected_PRODUCT_id:" "  [Ab-7] ");
    reflexivity.
Defined.

(** ** Wrapping layers *)

Lemma last_char_snoc_eq (x : string) (b : ascii) :
  last_char (x ++ String b "") = Some b.
Proof.
  induction x as [|a x IH]; [reflexivity|].
  simpl append. now apply last_char_cons.
Qed.

Lemma endswith_snoc (x : string) (b c : ascii) :
  endswith (x ++ String b "") c = Ascii.eqb b c.
Proof. unfold endswith. now rewrite last_char_snoc_eq. Qed.

Lemma drop_last_snoc (x : string) (b : ascii) :
  drop_last (x ++ String b "") = x.
Proof.
  induction x as [|a x IH]; [reflexivity|].
  simpl append. destruct (x ++ String b "") eqn:E.
  - destruct x; discriminate.
  - change (String a (drop_last (String a0 s)) = String a x).
    now rewrite IH.
Qed.

Lemma strip_wrapped (a b : ascii) (x : string) :
  is_space a = false -> is_space b = false ->
  strip (String a (x ++ String b "")) = String a (x ++ String b "").
Proof.
  intros Ha Hb. unfold strip. simpl lstrip. rewrite Ha.
  change (String a (x ++ String b "")) with (String a x ++ String b "").
  rewrite rstrip_app. simpl. now rewrite Hb.
Qed.

Lemma endswith_wrapped (a b c : ascii) (x : string) :
  endswith (String a (x ++ String b "")) c = Ascii.eqb b c.
Proof. exact (endswith_snoc (String a x) b c). Qed.

Lemma unwrap_parens (x : string) :
  unwrap_brackets (String "(" (x ++ ")")) = strip x.
Proof.
  unfold unwrap_brackets. cbn [startswith]. rewrite !endswith_wrapped.
  cbn [Ascii.eqb Bool.eqb andb orb slice_1_m1]. now rewrite drop_last_snoc.
Qed.

Lemma unwrap_square (x : string) :
  unwrap_brackets (String "[" (x ++ "]")) = strip x.
Proof.
  unfold unwrap_brackets. cbn [startswith]. rewrite !endswith_wrapped.
  cbn [Ascii.eqb Bool.eqb andb orb slice_1_m1]. now rewrite drop_last_snoc.
Qed.

Lemma unwrap_single (x : string) :
  unwrap_quotes (String "'" (x ++ "'")) = strip x.
Proof.
  unfold unwrap_quotes, quoted. cbn [startswith dq dquote].
  rewrite !endswith_wrapped.
  cbn [Ascii.eqb Bool.eqb andb orb slice_1_m1]. now rewrite drop_last_snoc.
Qed.

Lemma unwrap_quotes_other (a : ascii) (x : string) :
  Ascii.eqb a dquote = false -> Ascii.eqb a "'" = false ->
  unwrap_quotes (String a x) = String a x.
Proof.
  intros H1 H2. unfold unwrap_quotes, quoted, dq. simpl startswith.
  now rewrite H1, H2.
Qed.

Lemma unwrap_brackets_other (a : ascii) (x : string) :
  Ascii.eqb a "[" = false -> Ascii.eqb a "(" = false ->
  unwrap_brackets (String a x) = String a x.
Proof.
  intros H1 H2. unfold unwrap_brackets. simpl startswith.
  now rewrite H1, H2.
Qed.

Lemma drop_comma_wrapped (a b : ascii) (x : string) :
  Ascii.eqb b "," = false ->
  drop_comma (String a (x ++ String b "")) = String a (x ++ String b "").
Proof. intros H. unfold drop_comma. now rewrite endswith_wrapped, H. Qed.

(** X7: one layer of brackets or parentheses is removed, not two; a layer
    of quotes directly inside brackets is removed as well; brackets inside
    quotes stay. *)
Theorem wrapping_layers (v : string) :
  normalize_value ("(" ++ "(" ++ v ++ ")" ++ ")") = "(" ++ v ++ ")"
  /\ normalize_value ("[" ++ "'" ++ v ++ "'" ++ "]") = drop_comma (strip v)
  /\ normalize_value ("'" ++ "[" ++ v ++ "]" ++ "'") = "[" ++ v ++ "]".
Proof.
  unfold normalize_value. split; [|split].
  - replace ("(" ++ "(" ++ v ++ ")" ++ ")")
      with (String "(" (String "(" (v ++ ")") ++ ")"))
      by (simpl; now rewrite append_assoc).
    rewrite unwrap_parens, (strip_wrapped "(" ")") by reflexivity.
    rewrite unwrap_quotes_other by reflexivity.
    now rewrite drop_comma_wrapped.
  - replace ("[" ++ "'" ++ v ++ "'" ++ "]")
      with (String "[" (String "'" (v ++ "'") ++ "]"))
      by (simpl; now rewrite append_assoc).
    rewrite unwrap_square, (strip_wrapped "'" "'") by reflexivity.
    now rewrite unwrap_single.
  - replace ("'" ++ "[" ++ v ++ "]" ++ "'")
      with (String "'" (String "[" (v ++ "]") ++ "'"))
      by (simpl; now rewrite append_assoc).
    rewrite unwrap_brackets_other by reflexivity.
    rewrite unwrap_single, (strip_wrapped "[" "]") by reflexivity.
    now rewrite drop_comma_wrapped.
Qed.

(** ** The pipeline, outcome by outcome *)

(** [LIMIT 1] after a filter: the first row that passes, if any does. *)
Lemma first_match_spec {A : Type} (f : A -> bool) (l : list A) :
  match hd_error (firstn 1 (filter f l)) with
  | Some x => In x l /\ f x = true
  | None => forall x, In x l -> f x = false
  end.
Proof.
  induction l as [|a l IH]; cbn [filter].
  - intros x Hf. destruct Hf.
  - destruct (f a) eqn:Ea.
    + cbn [firstn hd_error]. split; [now left|exact Ea].
    + destruct (hd_error (firstn 1 (filter f l))) as [x|].
      * destruct IH as [Hin Hx]. split; [now right|exact Hx].
      * intros x [<-|Hin]; [exact Ea|now apply IH].
Qed.

Section Outcomes.
Context `{Scalars}.

(** X8: the pipeline fails in four ways only: the selection statement
    fails, it returns no row, no identifier can be parsed, or the detail
    statement fails.  The errors of the client pass through unchanged, and
    no decoding or index error of the parsing layer ever leaves the
    pipeline.  The detail statement is sent only in the last case. *)
Theorem fetch_failures (c : client) (cfg : config) (q : string)
  (calls : list client_call) (e : exn) :
  fetch_selected_product c cfg q = (calls, Raise e) ->
  (query_selection c cfg q = Raise e /\ calls = [QuerySelection q])
  \/ (query_selection c cfg q = Ok []
      /\ e = RuntimeError "Query returned no rows"
      /\ calls = [QuerySelection q])
  \/ (exists text,
        e = RuntimeError (unparseable_prefix ++ text)
        /\ calls = [QuerySelection q])
  \/ (exists id,
        query_details c cfg id = Raise e
        /\ calls = [QuerySelection q; QueryDetails id]).
Proof.
  rewrite fetch_unfold.
  destruct (query_selection c cfg q) as [[|row rest]|e0].
  - intros E. inversion E. auto.
  - destruct (extract_total (Some (or_else (selected_product row) "")))
      as [text ->].
    destruct (parse_total text) as [r ->].
    destruct r as [[|a id]|].
    + intros E. inversion E. right. right. left.
      eexists. split; reflexivity.
    + destruct (query_details c cfg (String a id)) eqn:Ed;
        intros E; inversion E; subst.
      right. right. right. eexists. split; [exact Ed|reflexivity].
    + intros E. inversion E. right. right. left.
      eexists. split; reflexivity.
  - intros E. inversion E. auto.
Qed.

(** X9: a result is returned only when the selection statement gave a
    row.  Its raw text is the normalised generation output of the first
    row, its identifier is what the parser reads in that text and is not
    empty, its candidate summary is the first row's, its record is the
    first row of the detail statement run with that identifier, and
    exactly these two statements were sent. *)
Theorem fetch_success (c : client) (cfg : config) (q : string)
  (calls : list client_call) (r : selection_result) :
  fetch_selected_product c cfg q = (calls, Ok r) ->
  exists row rest details,
    query_selection c cfg q = Ok (row :: rest)
    /\ r_search_query r = q
    /\ r_found_products r = found_products row
    /\ _extract_text_from_possible_json
         (Some (or_else (selected_product row) ""))
       = Ok (r_selected_raw r)
    /\ parse_selected_product_id (Some (r_selected_raw r))
       = Ok (Some (r_selected_product_id r))
    /\ r_selected_product_id r <> ""
    /\ query_details c cfg (r_selected_product_id r) = Ok details
    /\ r_selected_product r = hd_error details
    /\ calls = [QuerySelection q; QueryDetails (r_selected_product_id r)].
Proof.
  rewrite fetch_unfold.
  destruct (query_selection c cfg q) as [[|row rest]|e0]; try discriminate.
  destruct (_extract_text_from_possible_json _) as [text|e1] eqn:Et;
    [|discriminate].
  destruct (parse_selected_product_id (Some text)) as [[[|a id]|]|e2] eqn:Ep;
    try discriminate.
  destruct (query_details c cfg (String a id)) as [details|e3] eqn:Ed;
    [|discriminate].
  intros E. inversion E. subst. simpl.
  exists row, rest, details. repeat split; try assumption. discriminate.
Qed.

(** X10: of each statement's result the pipeline reads the first row and
    nothing else: a client that drops all other rows gives the same
    outcome. *)
Theorem fetch_reads_first_rows (c : client) (cfg : config) (q : string) :
  fetch_selected_product (first_rows_only c) cfg q
  = fetch_selected_product c cfg q.
Proof.
  rewrite !fetch_unfold. cbn [first_rows_only query_selection query_details].
  destruct (query_selection c cfg q) as [[|row rest]|e0]; try reflexivity.
  cbn [firstn].
  destruct (_extract_text_from_possible_json
              (Some (or_else (selected_product row) ""))) as [text|e1];
    [|reflexivity].
  destruct (parse_selected_product_id (Some text)) as [[[|a id]|]|e2];
    try reflexivity.
  destruct (query_details c cfg (String a id)) as [[|p ps]|e3];
    reflexivity.
Qed.

(** X11: with the statements run on a products table, a record in the
    result is a row of the table whose identifier, cast to a string, is
    the selected identifier; and the record is missing only when no row of
    the table has that identifier. *)
Theorem fetch_record_matches (e : engine) (cfg : config) (q : string)
  (calls : list client_call) (r : selection_result) :
  fetch_selected_product (bigquery e) cfg q = (calls, Ok r) ->
  match r_selected_product r with
  | Some p =>
      In p (products e)
      /\ id_string (p_product_id p) = r_selected_product_id r
  | None =>
      forall p, In p (products e) ->
                id_string (p_product_id p) <> r_selected_product_id r
  end.
Proof.
  rewrite fetch_unfold. cbn [bigquery query_selection query_details].
  destruct (selection_rows e q) as [|row rest]; [discriminate|].
  destruct (_extract_text_from_possible_json _) as [text|e1];
    [|discriminate].
  destruct (parse_selected_product_id (Some text)) as [[[|a id]|]|e2];
    try discriminate.
  intros E. inversion E. subst. clear E.
  cbn [r_selected_product r_selected_product_id]. unfold run_details.
  pose proof (first_match_spec
                (fun p => String.eqb (id_string (p_product_id p))
                                     (String a id))
                (products e)) as Hm.
  destruct (hd_error (firstn 1 (filter _ (products e)))) as [p|].
  - destruct Hm as [Hin Hid]. split; [exact Hin|].
    now apply String.eqb_eq.
  - intros p Hin. apply String.eqb_neq. now apply Hm.
Qed.

End Outcomes.

Lemma fetch_failures_witness :
  (query_selection failing_details_client sample_config "sink"
   = Raise (ClientError "backend error")
   /\ [QuerySelection "sink"; QueryDetails "42"] = [QuerySelection "sink"])
  \/ (query_selection failing_details_client sample_config "sink" = Ok []
      /\ ClientError "backend error" = RuntimeError "Query returned no rows"
      /\ [QuerySelection "sink"; QueryDetails "42"] = [QuerySelection "sink"])
  \/ (exists text,
        ClientError "backend error"
        = RuntimeError (unparseable_prefix ++ text)
        /\ [QuerySelection "sink"; QueryDetails "42"]
           = [QuerySelection "sink"])
  \/ (exists id,
        query_details failing_details_client sample_config id
        = Raise (ClientError "backend error")
        /\ [QuerySelection "sink"; QueryDetails "42"]
           = [QuerySelection "sink"; QueryDetails id]).
Proof.
  apply (@fetch_failures text_scalars failing_details_client sample_config
           "sink" [QuerySelection "sink"; QueryDetails "42"]
           (ClientError "backend error")).
  reflexivity.
Defined.

Lemma fetch_success_witness :
  exists row rest details,
    query_selection (stub_client (Some "SELECTED_PRODUCT_ID: 42")
                                 [basin; faucet])
      sample_config "sink"
    = Ok (row :: rest)
    /\ "sink" = "sink"
    /\ Some "Product ID: 42" = found_products row
    /\ _extract_text_from_possible_json
         (Some (or_else (selected_product row) ""))
       = Ok "SELECTED_PRODUCT_ID: 42"
    /\ parse_selected_product_id (Some "SELECTED_PRODUCT_ID: 42")
       = Ok (Some "42")
    /\ "42" <> ""
    /\ query_details (stub_client (Some "SELECTED_PRODUCT_ID: 42")
                                  [basin; faucet])
         sample_config "42"
       = Ok details
    /\ Some basin = hd_error details
    /\ [QuerySelection "sink"; QueryDetails "42"]
       = [QuerySelection "sink"; QueryDetails "42"].
Proof.
  apply (@fetch_success text_scalars
           (stub_client (Some "SELECTED_PRODUCT_ID: 42") [basin; faucet])
           sample_config "sink"
           [QuerySelection "sink"; QueryDetails "42"]
           {| r_search_query := "sink";
              r_found_products := Some "Product ID: 42";
              r_selected_raw := "SELECTED_PRODUCT_ID: 42";
              r_selected_product_id := "42";
              r_selected_product := Some basin |}).
  reflexivity.
Defined.

Lemma fetch_record_matches_witness :
  In basin (products answering_engine)
  /\ id_string (p_product_id basin) = "42".
Proof.
  apply (@fetch_record_matches text_scalars answering_engine sample_config
           "sink" [QuerySelection "sink"; QueryDetails "42"]
           {| r_search_query := "sink";
              r_found_products := Some "Product ID: 42";
              r_selected_raw := "SELECTED_PRODUCT_ID: 42";
              r_selected_product_id := "42";
              r_selected_product := Some basin |}).
  reflexivity.
Defined.

(** ** The statement: NULLs and descriptions *)

Lemma append_inv_head (a x y : string) : a ++ x = a ++ y -> x = y.
Proof.
  induction a as [|c a IH]; simpl; [exact (fun E => E)|].
  intros E. inversion E. auto.
Qed.

Section StatementFacts.
Context `{Scalars}.

Lemma found_block_cases (c : candidate) :
  found_block c = None
  <-> product_id c = None \/ similarity_score c = None.
Proof.
  unfold found_block, CAST.
  destruct (product_id c) as [i|]; [|cbn; tauto].
  destruct (similarity_score c) as [x|]; cbn [CONCAT option_map].
  - split; [discriminate|]. intros [E|E]; discriminate.
  - tauto.
Qed.

Lemma prompt_block_null (c : candidate) :
  prompt_block c = None
  <-> product_id c = None \/ similarity_score c = None.
Proof.
  rewrite prompt_block_cases.
  destruct (product_id c) as [i|]; [|tauto].
  destruct (similarity_score c) as [x|]; [|tauto].
  split; [discriminate|]. intros [E|E]; discriminate.
Qed.

Lemma non_null_empty (block : candidate -> option string)
  (cands : list candidate) :
  non_null (map block cands) = []
  <-> Forall (fun c => block c = None) cands.
Proof.
  induction cands as [|c cands IH]; cbn [map non_null].
  - split; [constructor|reflexivity].
  - destruct (block c) as [b|] eqn:Eb; split.
    + discriminate.
    + intros Hall. inversion Hall; subst. congruence.
    + intros E. constructor; [exact Eb|now apply IH].
    + intros Hall. inversion Hall; subst. now apply IH.
Qed.

Lemma string_agg_null (block : candidate -> option string)
  (cands : list candidate) (result : option string) :
  STRING_AGG (map block cands) block_separator result ->
  (result = None <-> Forall (fun c => block c = None) cands).
Proof.
  intros Ha. apply string_agg_arranged in Ha. destruct Ha as (l & Hp & ->).
  rewrite <- non_null_empty. destruct l as [|b l].
  - apply Permutation_nil in Hp. rewrite Hp. tauto.
  - split; [discriminate|]. intros E. rewrite E in Hp.
    apply Permutation_sym, Permutation_nil in Hp. discriminate.
Qed.

(** X12: a candidate's block is NULL exactly when its identifier or its
    score is NULL, the two columns cast without a default: a NULL title,
    brand, price or description never makes it NULL.  So the prompt and
    the candidate summary are NULL exactly when every candidate lacks an
    identifier or a score, in particular when there is no candidate. *)
Theorem null_without_usable_candidate (q : string)
  (cands : list candidate) :
  (forall c,
     prompt_block c = None
     <-> product_id c = None \/ similarity_score c = None)
  /\ (forall c,
        found_block c = None
        <-> product_id c = None \/ similarity_score c = None)
  /\ (forall p,
        prompt q cands p ->
        (p = None
         <-> Forall (fun c => product_id c = None
                              \/ similarity_score c = None) cands))
  /\ (forall found,
        found_summary cands found ->
        (found = None
         <-> Forall (fun c => product_id c = None
                              \/ similarity_score c = None) cands)).
Proof.
  split; [exact prompt_block_null|]. split; [exact found_block_cases|].
  split.
  - intros p (agg & Ha & ->). apply string_agg_null in Ha.
    assert (Hn : prompt_around q agg = None <-> agg = None).
    { destruct agg; cbn; split; (discriminate || reflexivity). }
    rewrite Hn, Ha, !Forall_forall.
    split; intros K c Hc; apply prompt_block_null, K, Hc.
  - intros found Ha. apply string_agg_null in Ha.
    rewrite Ha, !Forall_forall.
    split; intros K c Hc; apply found_block_cases, K, Hc.
Qed.

(** X13: of a description the prompt shows the first 200 characters and
    nothing else, the candidate summary shows nothing at all, and an
    empty description is shown empty: the placeholder stands for NULL
    only, in every block that is not NULL itself. *)
Theorem description_shown (c : candidate) :
  (forall d d',
     substring 0 200 d = substring 0 200 d' ->
     prompt_block (with_description c (Some d))
     = prompt_block (with_description c (Some d')))
  /\ (forall o o',
        found_block (with_description c o)
        = found_block (with_description c o'))
  /\ (forall i x,
        product_id c = Some i -> similarity_score c = Some x ->
        prompt_block (with_description c (Some ""))
        <> prompt_block (with_description c None)).
Proof.
  repeat split.
  - intros d d' E. unfold prompt_block, SUBSTR_1. cbn.
    now rewrite E.
  - intros i x Hi Hx E.
    rewrite (@prompt_block_rendered _ (with_description c (Some "")) i x),
      (@prompt_block_rendered _ (with_description c None) i x) in E
      by assumption.
    inversion E as [E'].
    revert E'. unfold rendered. cbn [with_description product_id title brand
      price description similarity_score].
    intros E'.
    repeat match type of E' with
           | String ?a _ = String ?a _ => injection E' as E'
           | _ ++ _ = _ ++ _ => apply append_inv_head in E'
           end.
    discriminate.
Qed.

End StatementFacts.

Lemma null_without_usable_candidate_witness :
  @None string = None
  <-> Forall (fun c => product_id c = None \/ similarity_score c = None)
             [nameless].
Proof.
  destruct (@null_without_usable_candidate text_scalars "sink" [nameless])
    as (_ & _ & Hp & _).
  apply Hp. exists None. split; [|reflexivity].
  exists [None]. split; [apply Permutation_refl|reflexivity].
Defined.

Lemma description_shown_witness :
  prompt_block
    (with_description sink
       (Some (String.concat "" (repeat "ab" 100) ++ "tail one")))
  = prompt_block
      (with_description sink
         (Some (String.concat "" (repeat "ab" 100) ++ "another tail"))).
Proof.
  destruct (@description_shown text_scalars sink) as (Hcut & _ & _).
  apply Hcut. reflexivity.
Defined.

(** ** The report of [main] *)

Section MainFacts.
Context `{Display}.

(** X14: when the pipeline returns a result, [main] ends with status 0,
    writes nothing on the error stream, and prints the query, the
    candidate summary (or the marker for none when it is NULL or empty),
    the raw selection text and the identifier as they are, and the record
    or the marker for not found.  The markers for a missing raw text or
    identifier are never printed: both are known not to be empty. *)
Theorem main_report (c : client) (cfg : config) (q : string)
  (calls : list client_call) (r : selection_result) :
  fetch_selected_product c cfg q = (calls, Ok r) ->
  main c cfg q
  = {| stdout :=
         print ("Search: " ++ q)
         ++ print ""
         ++ print ("Found candidates:" ++ nl)
         ++ print (match r_found_products r with
                   | None | Some "" => "<none>"
                   | Some found => found
                   end)
         ++ print ""
         ++ print ("LLM selection (raw):" ++ nl)
         ++ print (r_selected_raw r)
         ++ print ""
         ++ print ("Selected product ID: " ++ r_selected_product_id r)
         ++ print ""
         ++ match r_selected_product r with
            | Some p =>
                print "Selected product details:"
                ++ String.concat "" (map print (detail_lines p))
            | None => print "Selected product details: <not found>"
            end;
       stderr := "";
       exit_code := 0 |}.
Proof.
  intros E. unfold main. rewrite E. cbn [snd]. revert E.
  rewrite fetch_unfold.
  destruct (query_selection c cfg q) as [[|row rest]|e0]; try discriminate.
  destruct (_extract_text_from_possible_json _) as [text|e1];
    [|discriminate].
  destruct (parse_selected_product_id (Some text)) as [[[|a id]|]|e2] eqn:Ep;
    try discriminate.
  destruct (query_details c cfg (String a id)) as [details|e3];
    [|discriminate].
  intros E. inversion E. subst. clear E.
  destruct text as [|b text']; [discriminate|].
  reflexivity.
Qed.

End MainFacts.

Lemma main_report_witness :
  main (stub_client (Some "SELECTED_PRODUCT_ID: 42") []) sample_config "sink"
  = {| stdout :=
         print ("Search: " ++ "sink")
         ++ print ""
         ++ print ("Found candidates:" ++ nl)
         ++ print "Product ID: 42"
         ++ print ""
         ++ print ("LLM selection (raw):" ++ nl)
         ++ print "SELECTED_PRODUCT_ID: 42"
         ++ print ""
         ++ print ("Selected product ID: " ++ "42")
         ++ print ""
         ++ print "Selected product details: <not found>";
       stderr := "";
       exit_code := 0 |}.
Proof.
  apply (@main_report text_scalars text_display
           (stub_client (Some "SELECTED_PRODUCT_ID: 42") []) sample_config
           "sink" [QuerySelection "sink"; QueryDetails "42"]
           {| r_search_query := "sink";
              r_found_products := Some "Product ID: 42";
              r_selected_raw := "SELECTED_PRODUCT_ID: 42";
              r_selected_product_id := "42";
              r_selected_product := None |}).
  reflexivity.
Defined.

(** ** Escaping and the normaliser *)

Lemma escape_char_not_u (e c : ascii) :
  Json.escape_char e = Some c -> Ascii.eqb e "u" = false.
Proof.
  destruct (Ascii.eqb e "u") eqn:E; [|reflexivity].
  apply Ascii.eqb_eq in E. subst e. discriminate.
Qed.

Lemma lex_escape (c : ascii) (e : string) :
  escapes c e ->
  forall acc toks rest,
    Json.lex (Json.LStr acc) toks (e ++ rest)
    = Json.lex (Json.LStr (Json.snoc acc c)) toks rest.
Proof.
  intros He acc toks rest.
  destruct He
    as [Hn Hq Hb|e He|h1 h2 h3 h4 d1 d2 d3 d4 H1 H2 H3 H4 Hv].
  - simpl. rewrite Hq, Hb.
    apply Nat.leb_le in Hn. apply Nat.ltb_ge in Hn. now rewrite Hn.
  - simpl. rewrite (escape_char_not_u _ He). now rewrite He.
  - simpl. rewrite H1, H2, H3, H4. rewrite Hv.
    pose proof (nat_ascii_bounded c) as Hc. apply Nat.ltb_lt in Hc.
    rewrite Hc. now rewrite ascii_nat_embedding.
Qed.

Lemma lex_escape_all (esc : ascii -> string) :
  (forall c, escapes c (esc c)) ->
  forall s acc toks rest,
    Json.lex (Json.LStr acc) toks (escape_all esc s ++ rest)
    = Json.lex (Json.LStr (acc ++ s)) toks rest.
Proof.
  intros Hesc. induction s as [|c s IH]; intros acc toks rest.
  - simpl. now rewrite append_nil_r.
  - simpl escape_all.
    rewrite append_assoc, (@lex_escape c (esc c) (Hesc c)), IH.
    unfold Json.snoc. now rewrite append_assoc.
Qed.

Lemma loads_json_string (esc : ascii -> string) (s : string) :
  (forall c, escapes c (esc c)) ->
  json_loads (json_string esc s) = Ok (JString s).
Proof.
  intros Hesc. unfold json_loads, Json.decode, json_string, dq.
  simpl append. cbn [Json.lex Json.lex_top].
  change (Json.lex_top [] dquote) with (Some (Json.LStr "", @nil Json.token)).
  cbv beta iota. rewrite lex_escape_all by exact Hesc. reflexivity.
Qed.

(** X15: the normaliser undoes JSON string encoding.  Whatever escapes
    the encoder chooses among those JSON allows, the text of an encoded
    string is turned back into the string, character for character. *)
Theorem normalize_inverts_encoding (esc : ascii -> string) (s : string) :
  (forall c, escapes c (esc c)) ->
  _extract_text_from_possible_json (Some (json_string esc s)) = Ok s.
Proof.
  intros Hesc.
  assert (Hs : strip (json_string esc s) = json_string esc s)
    by (apply (strip_wrapped dquote dquote); reflexivity).
  unfold _extract_text_from_possible_json, try_quoted. rewrite Hs.
  rewrite loads_json_string by exact Hesc.
  assert (Hq : quoted (json_string esc s) = true).
  { unfold quoted, json_string, dq. simpl append.
    now rewrite endswith_wrapped. }
  now rewrite Hq.
Qed.

Lemma plain_escape_escapes (c : ascii) : escapes c (plain_escape c).
Proof.
  destruct c as [[] [] [] [] [] [] [] []];
    vm_compute;
    first [ apply EscPlain; reflexivity
          | eapply EscShort; reflexivity
          | eapply EscHex; reflexivity ].
Qed.

Lemma normalize_inverts_encoding_witness :
  _extract_text_from_possible_json
    (Some (json_string plain_escape
             ("SELECTED_PRODUCT_ID: " ++ quote "42" ++ nl ++ "a\b")))
  = Ok ("SELECTED_PRODUCT_ID: " ++ quote "42" ++ nl ++ "a\b").
Proof.
  apply (@normalize_inverts_encoding plain_escape). exact plain_escape_escapes.
Defined.
